(** * fizzbuzztensor: table-driven FizzBuzz, embedded and verified

    A shallow embedding of the Python sources [fizzbuzz.py],
    [fizzbuzz_compact.py], [fizzbuzz_batched.py] and
    [dimensional_representations.py].

    Modelling conventions.
    - A one-dimensional numpy array is a [list]; a two-dimensional one is
      a list of rows.
    - Python integers are mathematical integers ([Z]); the entries of
      numpy integer arrays are int64 values, written in [Z].  The scalar
      arithmetic that shapes the table of [create_pattern] (the least
      common multiple, [period + 1], the powers of two and their sums)
      wraps as int64 does.  Positions are kept exact: the functions are
      embedded for arguments whose positions are int64 values, and every
      theorem about arbitrary arguments says so in its hypotheses
      ([Int64.fits]); what numpy does with a bound or an offset outside
      int64 is not modelled.  Memory is unbounded.
    - Python exceptions are the [Raise] branch of the [result] type; the
      functions thread it with [bind]. *)

From Stdlib Require Import ZArith List String Ascii Bool Lia.
From Stdlib Require Import DecimalString.
From Stdlib Require DecimalZ.
Import ListNotations.
Open Scope string_scope.
Open Scope list_scope.
Open Scope Z_scope.

(** ** Exceptions *)

Inductive exn : Type :=
| IndexError   (* an index outside an array or a list *)
| ValueError   (* shapes that do not fit, negative dimensions *)
| ReduceError. (* a ufunc reduction over an empty sequence with no identity *)

Inductive result (A : Type) : Type :=
| Ok (a : A)
| Raise (e : exn).

Arguments Ok {A} a.
Arguments Raise {A} e.

Definition bind {A B : Type} (r : result A) (k : A -> result B) : result B :=
  match r with
  | Ok a => k a
  | Raise e => Raise e
  end.

Notation "x <- r ;; k" := (bind r (fun x => k))
  (at level 61, r at next level, right associativity).

Fixpoint mapM {A B : Type} (f : A -> result B) (l : list A) : result (list B) :=
  match l with
  | [] => Ok []
  | x :: xs => y <- f x ;; ys <- mapM f xs ;; Ok (y :: ys)
  end.

(** ** Machine integers *)

Module Int64.

Definition min : Z := - 2 ^ 63.

Definition max : Z := 2 ^ 63 - 1.

(** [x] is an int64 value. *)
Definition fits (x : Z) : Prop := min <= x <= max.

(** The int64 value an exact result wraps to. *)
Definition wrap (x : Z) : Z := (x + 2 ^ 63) mod 2 ^ 64 - 2 ^ 63.

End Int64.

(** ** The numpy and Python primitives the sources use *)

Module Np.

(** [np.arange(lo, hi)] for int64 bounds: the integers of [lo, hi),
    empty when [hi <= lo]. *)
Definition arange (lo hi : Z) : list Z :=
  map (fun i => lo + Z.of_nat i) (seq 0 (Z.to_nat (hi - lo))).

(** Python's [range(n)] and [np.arange(n)]. *)
Definition range (n : Z) : list Z := arange 0 n.

(** Integer [%] of numpy: the sign follows the divisor, and a zero
    divisor gives 0 (with a warning) instead of raising. *)
Definition mod_ (a b : Z) : Z := if b =? 0 then 0 else a mod b.

(** [astype(int)] of a boolean. *)
Definition of_bool (b : bool) : Z := if b then 1 else 0.

(** [str(i)] and [astype(str)] of an integer: its decimal numeral. *)
Definition str (i : Z) : string := NilZero.string_of_int (Z.to_int i).

(** [a[i]] for an integer [i]: negative indices count from the end,
    anything outside [-len, len) raises. *)
Definition index {A : Type} (a : list A) (i : Z) : result A :=
  let n := Z.of_nat (List.length a) in
  let j := if i <? 0 then i + n else i in
  if (0 <=? j) && (j <? n)
  then match nth_error a (Z.to_nat j) with
       | Some x => Ok x
       | None => Raise IndexError
       end
  else Raise IndexError.

(** [a[idx]] for an integer index array [idx]. *)
Definition take {A : Type} (a : list A) (idx : list Z) : result (list A) :=
  mapM (index a) idx.

(** [m[rows, cols]] for two index arrays of one shape: the entries
    [m[rows[t]][cols[t]]]; shapes that differ do not broadcast. *)
Fixpoint take2 {A : Type} (m : list (list A)) (rows cols : list Z)
  : result (list A) :=
  match rows, cols with
  | [], [] => Ok []
  | r :: rs, c :: cs =>
      row <- index m r ;;
      x <- index row c ;;
      xs <- take2 m rs cs ;;
      Ok (x :: xs)
  | _, _ => Raise IndexError
  end.

(** [xs[mask]] for a boolean mask. *)
Fixpoint select {A : Type} (xs : list A) (mask : list bool) : list A :=
  match xs, mask with
  | x :: xs', b :: mask' =>
      if b then x :: select xs' mask' else select xs' mask'
  | _, _ => []
  end.

Fixpoint count_true (mask : list bool) : nat :=
  match mask with
  | [] => 0
  | b :: mask' => (if b then 1 else 0) + count_true mask'
  end.

(** The cells of [res] under a true mask bit take the values of [vals]
    in order. *)
Fixpoint put {A : Type} (res : list A) (mask : list bool) (vals : list A)
  : list A :=
  match res, mask with
  | r :: res', b :: mask' =>
      if b
      then match vals with
           | v :: vals' => v :: put res' mask' vals'
           | [] => r :: put res' mask' []
           end
      else r :: put res' mask' vals
  | _, _ => res
  end.

(** [res[mask] = vals]: the mask has the shape of [res]; [vals] has one
    value per true bit, or is a single value that is broadcast. *)
Definition assign {A : Type} (res : list A) (mask : list bool) (vals : list A)
  : result (list A) :=
  if negb (Nat.eqb (List.length mask) (List.length res)) then Raise IndexError
  else if Nat.eqb (List.length vals) (count_true mask)
  then Ok (put res mask vals)
  else match vals with
       | [v] => Ok (map (fun rb : A * bool => if snd rb then v else fst rb)
                      (combine res mask))
       | _ => Raise ValueError
       end.

(** [np.lcm] on int64: [|a| / gcd(|a|,|b|) * |b|], computed in unsigned
    64-bit arithmetic and read back as int64, and 0 when the gcd is 0. *)
Definition lcm (a b : Z) : Z :=
  let g := Z.gcd (Z.abs a) (Z.abs b) in
  if g =? 0 then 0 else Int64.wrap (Z.abs a / g * Z.abs b).

(** [np.lcm.reduce]: folds from the first element; [lcm] has no identity,
    so an empty sequence raises. *)
Definition lcm_reduce (l : list Z) : result Z :=
  match l with
  | [] => Raise ReduceError
  | x :: xs => Ok (fold_left lcm xs x)
  end.

(** The product [m @ v] of a matrix with a vector: a dot product per row. *)
Fixpoint dot (u v : list Z) : Z :=
  match u, v with
  | x :: u', y :: v' => x * y + dot u' v'
  | _, _ => 0
  end.

Definition matvec (m : list (list Z)) (v : list Z) : list Z :=
  map (fun row => dot row v) m.

(** [n] spaces. *)
Fixpoint spaces (n : nat) : string :=
  match n with
  | O => ""
  | S n' => String " " (spaces n')
  end.

(** The format spec [3d]: the decimal numeral, right-aligned in at least
    three columns. *)
Definition format_3d (i : Z) : string :=
  let s := str i in
  String.append (spaces (3 - String.length s)) s.

(** [sep.join(l)]. *)
Definition join (sep : string) (l : list string) : string :=
  String.concat sep l.

End Np.

(** ** fizzbuzz.py: the pattern vector *)

Module Fizzbuzz.

Definition PATTERN : list Z := [0; 0; 1; 0; 2; 1; 0; 0; 1; 2; 0; 1; 0; 0; 3].

Definition DECODER : list string := ["{}"; "Fizz"; "Buzz"; "FizzBuzz"].

Definition fizzbuzz (n : Z) : result (list string) :=
  let nums := Np.arange 1 (n + 1) in
  categories <- Np.take PATTERN (map (fun x => Np.mod_ (x - 1) 15) nums) ;;
  result <- Np.take DECODER categories ;;
  let number_mask := map (fun c => c =? 0) categories in
  Np.assign result number_mask (map Np.str (Np.select nums number_mask)).

(** [[divisors[i][1] for i, a in enumerate(active) if a]]. *)
Fixpoint active_labels (divisors : list (Z * string)) (i : Z) (active : list Z)
  : result (list string) :=
  match active with
  | [] => Ok []
  | a :: rest =>
      if a =? 0 then active_labels divisors (i + 1) rest
      else
        d <- Np.index divisors i ;;
        ls <- active_labels divisors (i + 1) rest ;;
        Ok (snd d :: ls)
  end.

(** The body of the loop that fills [decoder[category]]. *)
Definition decode (divisors : list (Z * string)) (category : Z)
  : result string :=
  let active :=
    map (fun i => Z.land (Z.shiftr category i) 1)
        (Np.range (Z.of_nat (List.length divisors))) in
  labels <- active_labels divisors 0 active ;;
  Ok (match labels with
      | [] => "{}"
      | _ => String.concat "" labels
      end).

Definition create_pattern (divisors : list (Z * string))
  : result (list Z * list string) :=
  let div_values := map fst divisors in
  period <- Np.lcm_reduce div_values ;;
  (* [period] is an int64 scalar: [period + 1] wraps *)
  let nums := Np.arange 1 (Int64.wrap (period + 1)) in
  let div_matrix :=
    map (fun n => map (fun d => Np.of_bool (Np.mod_ n d =? 0)) div_values)
        nums in
  (* int64 powers and an int64 product: both wrap *)
  let powers :=
    map (fun i => Int64.wrap (2 ^ i))
        (Np.range (Z.of_nat (List.length divisors))) in
  let pattern := map Int64.wrap (Np.matvec div_matrix powers) in
  let n_categories := 2 ^ Z.of_nat (List.length divisors) in
  decoder <- mapM (decode divisors) (Np.range n_categories) ;;
  Ok (pattern, decoder).

(** The lookup of the script's main block, for any table and positions:
    [categories = pattern[(nums - 1) % len(pattern)]], decode, then put
    the number wherever the decoded cell is the placeholder. *)
Definition lookup (pattern : list Z) (decoder : list string) (nums : list Z)
  : result (list string) :=
  categories <-
    Np.take pattern
      (map (fun x => Np.mod_ (x - 1) (Z.of_nat (List.length pattern))) nums) ;;
  result <- Np.take decoder categories ;;
  let number_mask := map (fun s => String.eqb s "{}") result in
  Np.assign result number_mask (map Np.str (Np.select nums number_mask)).

End Fizzbuzz.

(** ** fizzbuzz_compact.py: the 2x2 binary matrix *)

Module Compact.

Definition PATTERN_COMPACT : list (list Z) := [[0; 2]; [1; 3]].

Definition DECODER : list string := ["{}"; "Fizz"; "Buzz"; "FizzBuzz"].

Definition fizzbuzz (n : Z) : result (list string) :=
  let nums := Np.arange 1 (n + 1) in
  let div_by_3 := map (fun x => Np.of_bool (Np.mod_ x 3 =? 0)) nums in
  let div_by_5 := map (fun x => Np.of_bool (Np.mod_ x 5 =? 0)) nums in
  categories <- Np.take2 PATTERN_COMPACT div_by_3 div_by_5 ;;
  result <- Np.take DECODER categories ;;
  let number_mask := map (fun c => c =? 0) categories in
  Np.assign result number_mask (map Np.str (Np.select nums number_mask)).

End Compact.

(** ** fizzbuzz_batched.py: the batched tensor *)

Module Batched.

(** The two nested loops that fill [result[i, j]]. *)
Definition fill (decoder : list string) (nums categories : list (list Z))
    (batch_size sequence_length : Z) : result (list (list string)) :=
  mapM (fun i =>
    mapM (fun j =>
      crow <- Np.index categories i ;;
      cat <- Np.index crow j ;;
      if cat =? 0
      then nrow <- Np.index nums i ;;
           x <- Np.index nrow j ;;
           Ok (Np.str x)
      else Np.index decoder cat)
      (Np.range sequence_length))
    (Np.range batch_size).

(** The positions [nums] are kept exact: the embedding is for int64
    arguments whose positions are int64 values ([Spec.batch_fits]). *)
Definition fizzbuzz_batched (batch_size sequence_length offset : Z)
  : result (list (list string) * list (list (list Z)) * list (list Z)) :=
  let batch_offsets := Np.range batch_size in
  let positions := Np.range sequence_length in
  let nums :=
    map (fun b => map (fun p => offset + b * sequence_length + p + 1) positions)
        batch_offsets in
  let divisors := [3; 5] in
  let div_tensor :=
    map (map (fun x => map (fun d => Np.of_bool (Np.mod_ x d =? 0)) divisors))
        nums in
  let powers := [1; 2] in
  (* (div_tensor * powers).sum(axis=2) *)
  let categories := map (map (fun bits => Np.dot bits powers)) div_tensor in
  let decoder := ["{}"; "Fizz"; "Buzz"; "FizzBuzz"] in
  (* np.empty refuses a negative dimension *)
  if (batch_size <? 0) || (sequence_length <? 0) then Raise ValueError
  else
    result <- fill decoder nums categories batch_size sequence_length ;;
    Ok (result, div_tensor, nums).

(** The labels of the positions [start, start + count): the only row of
    a batch of one sequence. *)
Definition lookup_range (start count : Z) : result (list string) :=
  r <- fizzbuzz_batched 1 count (start - 1) ;;
  Ok (List.concat (fst (fst r))).


(** The line [print_batched] prints for the batch [i]. *)
Definition batch_line (res : list (list string)) (start_nums : list (list Z))
    (i : Z) : result string :=
  first_row <- Np.index start_nums i ;;
  start <- Np.index first_row 0 ;;
  last_row <- Np.index start_nums i ;;
  end_ <- Np.index last_row (-1) ;;
  row <- Np.index res i ;;
  Ok (String.concat ""
        ["  Batch "; Np.str i; " ("; Np.format_3d start; "-";
         Np.format_3d end_; "): "; Np.join " " row]).

(** A loop that prints one line per index: the lines printed, and how
    the loop ended (an exception stops it, the lines already printed
    stay printed). *)
Fixpoint print_each (line : Z -> result string) (indices : list Z)
  : list string * result unit :=
  match indices with
  | [] => ([], Ok tt)
  | i :: rest =>
      match line i with
      | Raise e => ([], Raise e)
      | Ok l =>
          let (printed, outcome) := print_each line rest in
          (l :: printed, outcome)
      end
  end.

Definition print_batched (res : list (list string))
    (start_nums : list (list Z)) : list string * result unit :=
  let batch_size := Z.of_nat (List.length res) in
  print_each (batch_line res start_nums) (Np.range batch_size).

End Batched.

(** ** dimensional_representations.py *)

Module Dimensional.

Definition PATTERN_BINARY : list (list Z) := [[0; 2]; [1; 3]].

Definition fizzbuzz_binary (n : Z) : result (list string) :=
  let nums := Np.arange 1 (n + 1) in
  let div_by_3 := map (fun x => Np.of_bool (Np.mod_ x 3 =? 0)) nums in
  let div_by_5 := map (fun x => Np.of_bool (Np.mod_ x 5 =? 0)) nums in
  categories <- Np.take2 PATTERN_BINARY div_by_3 div_by_5 ;;
  let decoder := ["{}"; "Fizz"; "Buzz"; "FizzBuzz"] in
  result <- Np.take decoder categories ;;
  let zero := map (fun c => c =? 0) categories in
  Np.assign result zero (map Np.str (Np.select nums zero)).

Definition PATTERN_MODULAR : list (list Z) :=
  [[3; 1; 1; 1; 1];
   [2; 0; 0; 0; 0];
   [2; 0; 0; 0; 0]].

Definition fizzbuzz_modular (n : Z) : result (list string) :=
  let nums := Np.arange 1 (n + 1) in
  categories <-
    Np.take2 PATTERN_MODULAR
      (map (fun x => Np.mod_ x 3) nums) (map (fun x => Np.mod_ x 5) nums) ;;
  let decoder := ["{}"; "Fizz"; "Buzz"; "FizzBuzz"] in
  result <- Np.take decoder categories ;;
  let zero := map (fun c => c =? 0) categories in
  Np.assign result zero (map Np.str (Np.select nums zero)).

Definition PATTERN_VECTOR : list Z :=
  [0; 0; 1; 0; 2; 1; 0; 0; 1; 2; 0; 1; 0; 0; 3].

Definition fizzbuzz_vector (n : Z) : result (list string) :=
  let nums := Np.arange 1 (n + 1) in
  categories <-
    Np.take PATTERN_VECTOR (map (fun x => Np.mod_ (x - 1) 15) nums) ;;
  let decoder := ["{}"; "Fizz"; "Buzz"; "FizzBuzz"] in
  result <- Np.take decoder categories ;;
  let zero := map (fun c => c =? 0) categories in
  Np.assign result zero (map Np.str (Np.select nums zero)).

Definition fizzbuzz_batched (batch_size sequence_length : Z)
  : result (list (list string) * list (list (list Z))) :=
  let offsets := Np.range batch_size in
  let positions := Np.range sequence_length in
  let nums :=
    map (fun b => map (fun p => b * sequence_length + p + 1) positions)
        offsets in
  let divisors := [3; 5] in
  let div_matrix :=
    map (map (fun x => map (fun d => Np.of_bool (Np.mod_ x d =? 0)) divisors))
        nums in
  let powers := [1; 2] in
  let categories := map (map (fun bits => Np.dot bits powers)) div_matrix in
  let decoder := ["{}"; "Fizz"; "Buzz"; "FizzBuzz"] in
  if (batch_size <? 0) || (sequence_length <? 0) then Raise ValueError
  else
    result <-
      Batched.fill decoder nums categories batch_size sequence_length ;;
    Ok (result, div_matrix).

End Dimensional.

(** ** The words of the specification, for comparison with the code *)

Module Spec.

(** The least common multiple of a list of divisors. *)
Definition lcm_all (ds : list Z) : Z := fold_right Z.lcm 1 ds.

(** The label of the position [x] for the classic divisors 3 and 5. *)
Definition label (x : Z) : string :=
  match (x mod 3 =? 0)%Z, (x mod 5 =? 0)%Z with
  | true, true => "FizzBuzz"
  | true, false => "Fizz"
  | false, true => "Buzz"
  | false, false => Np.str x
  end.

(** The labels, in spec order, of the divisors whose bit is set in the
    category [c]; [j] is the bit of the first divisor of the list. *)
Fixpoint bit_labels (spec : list (Z * string)) (j : Z) (c : Z)
  : list string :=
  match spec with
  | [] => []
  | (_, l) :: rest =>
      if Z.testbit c j then l :: bit_labels rest (j + 1) c
      else bit_labels rest (j + 1) c
  end.

(** Their concatenation. *)
Fixpoint set_labels (spec : list (Z * string)) (j : Z) (c : Z) : string :=
  match spec with
  | [] => ""
  | (_, l) :: rest =>
      if Z.testbit c j then String.append l (set_labels rest (j + 1)%Z c)
      else set_labels rest (j + 1)%Z c
  end.

(** The category of the position [x] for the classic divisors: bit 0
    for 3, bit 1 for 5. *)
Definition category (x : Z) : Z :=
  Np.of_bool (x mod 3 =? 0) + 2 * Np.of_bool (x mod 5 =? 0).

(** The divisor specs of the scenarios. *)
Definition classic : list (Z * string) := [(3, "Fizz"); (5, "Buzz")].

Definition fizzbuzzbazz : list (Z * string) :=
  [(3, "Fizz"); (5, "Buzz"); (7, "Bazz")].

(** The expected output of the classic scenario. *)
Definition first_fifteen : list string :=
  ["1"; "2"; "Fizz"; "4"; "Buzz"; "Fizz"; "7"; "8"; "Fizz"; "Buzz";
   "11"; "Fizz"; "13"; "14"; "FizzBuzz"].


(** The decoder every fixed-divisor function uses. *)
Definition classic_decoder : list string :=
  ["{}"; "Fizz"; "Buzz"; "FizzBuzz"].

(** A valid divisor spec: at least one divisor, every divisor >= 1. *)
Definition valid (spec : list (Z * string)) : Prop :=
  spec <> [] /\ Forall (fun d => 1 <= fst d) spec.

(** The period of the spec is within the machine's reach: the divisors
    are int64 values and int64 can count one past their least common
    multiple. *)
Definition period_fits (spec : list (Z * string)) : Prop :=
  Forall (fun d => Int64.fits (fst d)) spec /\
  Int64.fits (lcm_all (map fst spec) + 1).

(** The whole table is: moreover the categories, one bit per divisor,
    are int64 values. *)
Definition machine (spec : list (Z * string)) : Prop :=
  period_fits spec /\ Z.of_nat (List.length spec) <= 63.

(** A position the lookup can take: [x] and [x - 1] are int64 values. *)
Definition position (x : Z) : Prop :=
  Int64.fits (x - 1) /\ Int64.fits x.

(** The arguments of a batched call are int64 values and so is every
    position up to [offset + batch_size * sequence_length]. *)
Definition batch_fits (batch_size sequence_length offset : Z) : Prop :=
  Int64.fits batch_size /\ Int64.fits sequence_length /\
  Int64.fits offset /\
  Int64.fits (offset + batch_size * sequence_length).

(** The labels, in spec order, of the divisors that divide [x]. *)
Definition dividing_labels (spec : list (Z * string)) (x : Z) : list string :=
  map snd (filter (fun d => (x mod fst d =? 0)%Z) spec).

(** The generalised FizzBuzz word of [x]: the labels of its divisors
    joined, or the numeral of [x] when there is none or when the joined
    labels spell the placeholder. *)
Definition word (spec : list (Z * string)) (x : Z) : string :=
  match dividing_labels spec x with
  | [] => Np.str x
  | ls =>
      let w := String.concat "" ls in
      if String.eqb w "{}" then Np.str x else w
  end.

End Spec.

(** ** Closed forms of what [create_pattern] returns *)

Module Closed.

(** The value of a little-endian list of bits. *)
Fixpoint bits_value (bits : list bool) : Z :=
  match bits with
  | [] => 0
  | b :: bs => Np.of_bool b + 2 * bits_value bs
  end.

(** The divisibility bits of the position [n], one per divisor. *)
Definition div_bits (spec : list (Z * string)) (n : Z) : list bool :=
  map (fun d => Np.mod_ n d =? 0) (map fst spec).

Definition pattern (spec : list (Z * string)) (period : Z) : list Z :=
  map (fun n => bits_value (div_bits spec n)) (Np.arange 1 (period + 1)).

(** The table as [create_pattern] computes it, wraps included. *)
Definition table (spec : list (Z * string)) (period : Z) : list Z :=
  map (fun n =>
         Int64.wrap
           (Np.dot (map Np.of_bool (div_bits spec n))
              (map (fun i => Int64.wrap (2 ^ i))
                 (Np.range (Z.of_nat (List.length spec))))))
      (Np.arange 1 (Int64.wrap (period + 1))).

Definition entry (spec : list (Z * string)) (c : Z) : string :=
  match Spec.bit_labels spec 0 c with
  | [] => "{}"
  | ls => String.concat "" ls
  end.

Definition decoder (spec : list (Z * string)) : list string :=
  map (entry spec) (Np.range (2 ^ Z.of_nat (List.length spec))).

(** The category the table holds for the position [x]. *)
Definition category (spec : list (Z * string)) (period x : Z) : Z :=
  bits_value (div_bits spec ((x - 1) mod period + 1)).

(** What the lookup writes at the position [x]. *)
Definition output (spec : list (Z * string)) (period x : Z) : string :=
  let s := entry spec (category spec period x) in
  if String.eqb s "{}" then Np.str x else s.

(** What the lookup computes for one position, on any table. *)
Definition cell (pattern : list Z) (decoder : list string) (x : Z)
  : result string :=
  c <- Np.index pattern (Np.mod_ (x - 1) (Z.of_nat (List.length pattern))) ;;
  s <- Np.index decoder c ;;
  Ok (if String.eqb s "{}" then Np.str x else s).

(** The three arrays of the batched tensor, row [b]. *)
Definition batch_nums (sequence_length offset b : Z) : list Z :=
  map (fun p => offset + b * sequence_length + p + 1)
      (Np.range sequence_length).

Definition batch_labels (sequence_length offset b : Z) : list string :=
  map Spec.label (batch_nums sequence_length offset b).

Definition batch_bits (sequence_length offset b : Z) : list (list Z) :=
  map (fun x => [Np.of_bool (x mod 3 =? 0); Np.of_bool (x mod 5 =? 0)])
      (batch_nums sequence_length offset b).

End Closed.

(** * Proofs *)

(** ** The error monad and the array primitives *)

Section Primitives.

Context {A B : Type}.

Lemma mapM_ok (f : A -> result B) (g : A -> B) (l : list A) :
  (forall x, In x l -> f x = Ok (g x)) -> mapM f l = Ok (map g l).
Proof.
  induction l as [| x xs IH]; intros H; simpl; [reflexivity |].
  rewrite (H x (or_introl eq_refl)); simpl.
  rewrite IH by (intros y Hy; apply H; right; exact Hy).
  reflexivity.
Qed.

Lemma take_map (a : list B) (g : A -> Z) (h : A -> B) (xs : list A) :
  (forall x, In x xs -> Np.index a (g x) = Ok (h x)) ->
  Np.take a (map g xs) = Ok (map h xs).
Proof.
  intros H. unfold Np.take.
  induction xs as [| x xs IH]; simpl; [reflexivity |].
  rewrite (H x (or_introl eq_refl)); simpl.
  rewrite IH by (intros y Hy; apply H; right; exact Hy).
  reflexivity.
Qed.

Lemma take2_map (m : list (list B)) (g1 g2 : A -> Z) (h : A -> B)
    (xs : list A) :
  (forall x, In x xs ->
     (row <- Np.index m (g1 x) ;; Np.index row (g2 x)) = Ok (h x)) ->
  Np.take2 m (map g1 xs) (map g2 xs) = Ok (map h xs).
Proof.
  intros H.
  induction xs as [| x xs IH]; simpl; [reflexivity |].
  pose proof (H x (or_introl eq_refl)) as Hx.
  destruct (Np.index m (g1 x)) as [row |]; simpl in *; [| discriminate].
  rewrite Hx; simpl.
  rewrite IH by (intros y Hy; apply H; right; exact Hy).
  reflexivity.
Qed.

Lemma select_count (xs : list A) (p : A -> bool) :
  List.length (Np.select xs (map p xs)) = Np.count_true (map p xs).
Proof.
  induction xs as [| x xs IH]; simpl; [reflexivity |].
  destruct (p x); simpl; rewrite IH; reflexivity.
Qed.

Lemma put_map (f g : A -> B) (p : A -> bool) (xs : list A) :
  Np.put (map f xs) (map p xs) (map g (Np.select xs (map p xs))) =
  map (fun x => if p x then g x else f x) xs.
Proof.
  induction xs as [| x xs IH]; simpl; [reflexivity |].
  destruct (p x); simpl; rewrite IH; reflexivity.
Qed.

(** Masked assignment of values computed from the masked positions is a
    pointwise choice. *)
Lemma assign_map (f g : A -> B) (p : A -> bool) (xs : list A) :
  Np.assign (map f xs) (map p xs) (map g (Np.select xs (map p xs))) =
  Ok (map (fun x => if p x then g x else f x) xs).
Proof.
  unfold Np.assign.
  rewrite !length_map, Nat.eqb_refl; simpl.
  rewrite select_count, Nat.eqb_refl, put_map.
  reflexivity.
Qed.

End Primitives.

Lemma index_in_range {A : Type} (a : list A) (i : Z) (d : A) :
  0 <= i < Z.of_nat (List.length a) ->
  Np.index a i = Ok (nth (Z.to_nat i) a d).
Proof.
  intros H. unfold Np.index.
  replace (i <? 0) with false by (symmetry; apply Z.ltb_ge; lia).
  replace (0 <=? i) with true by (symmetry; apply Z.leb_le; lia).
  replace (i <? Z.of_nat (List.length a)) with true
    by (symmetry; apply Z.ltb_lt; lia).
  simpl.
  destruct (nth_error a (Z.to_nat i)) as [x |] eqn:E.
  - rewrite (nth_error_nth _ _ d E). reflexivity.
  - apply nth_error_None in E. lia.
Qed.

(** ** Ranges *)

Lemma arange_length (lo hi : Z) :
  List.length (Np.arange lo hi) = Z.to_nat (hi - lo).
Proof. unfold Np.arange. rewrite length_map, length_seq. reflexivity. Qed.

Lemma arange_empty (lo hi : Z) : hi <= lo -> Np.arange lo hi = [].
Proof.
  intros H. unfold Np.arange.
  replace (Z.to_nat (hi - lo)) with 0%nat by lia. reflexivity.
Qed.

Lemma arange_in (lo hi x : Z) : In x (Np.arange lo hi) <-> lo <= x < hi.
Proof.
  unfold Np.arange. rewrite in_map_iff. split.
  - intros [i [<- Hi]]. apply in_seq in Hi. lia.
  - intros H. exists (Z.to_nat (x - lo)). split; [lia |].
    apply in_seq. lia.
Qed.

Lemma map_seq_from {A : Type} (f : nat -> A) (a b : nat) :
  map f (seq a b) = map (fun i => f (a + i)%nat) (seq 0 b).
Proof.
  revert a f. induction b as [| b IH]; intros a f; simpl; [reflexivity |].
  rewrite Nat.add_0_r. f_equal.
  rewrite (IH (S a)), (IH 1%nat).
  apply map_ext. intros i. f_equal. lia.
Qed.

Lemma arange_split (lo mid hi : Z) :
  lo <= mid <= hi -> Np.arange lo hi = Np.arange lo mid ++ Np.arange mid hi.
Proof.
  intros H. unfold Np.arange.
  replace (Z.to_nat (hi - lo))
    with (Z.to_nat (mid - lo) + Z.to_nat (hi - mid))%nat by lia.
  rewrite seq_app, map_app. f_equal.
  rewrite map_seq_from. apply map_ext. intros i. lia.
Qed.

Lemma arange_nth (lo hi : Z) (i : nat) (d : Z) :
  (i < Z.to_nat (hi - lo))%nat ->
  nth i (Np.arange lo hi) d = lo + Z.of_nat i.
Proof.
  intros H. unfold Np.arange.
  rewrite (nth_indep _ d (lo + Z.of_nat 0))
    by (rewrite length_map, length_seq; exact H).
  rewrite (map_nth (fun i => lo + Z.of_nat i)), seq_nth by exact H.
  reflexivity.
Qed.

(** ** The classic categories, pointwise *)

Lemma category_cases (x : Z) :
  Spec.category x = 0 \/ Spec.category x = 1 \/
  Spec.category x = 2 \/ Spec.category x = 3.
Proof.
  unfold Spec.category.
  destruct (x mod 3 =? 0), (x mod 5 =? 0); simpl; auto.
Qed.

Lemma decoder_category (x : Z) :
  Np.index Spec.classic_decoder (Spec.category x) =
  Ok (nth (Z.to_nat (Spec.category x)) Spec.classic_decoder "").
Proof.
  apply index_in_range.
  destruct (category_cases x) as [E | [E | [E | E]]]; rewrite E; simpl; lia.
Qed.

Lemma label_of_category (x : Z) :
  (if Spec.category x =? 0 then Np.str x
   else nth (Z.to_nat (Spec.category x)) Spec.classic_decoder "")
  = Spec.label x.
Proof.
  unfold Spec.category, Spec.label.
  destruct (x mod 3 =? 0), (x mod 5 =? 0); reflexivity.
Qed.

(** The tail every fixed-divisor function shares: decode the categories,
    then write the number where the category is 0. *)
Lemma decode_numbers (nums : list Z) :
  (result <- Np.take Spec.classic_decoder (map Spec.category nums) ;;
   Np.assign result
     (map (fun c => c =? 0) (map Spec.category nums))
     (map Np.str
        (Np.select nums (map (fun c => c =? 0) (map Spec.category nums)))))
  = Ok (map Spec.label nums).
Proof.
  rewrite (take_map Spec.classic_decoder Spec.category
             (fun x =>
                nth (Z.to_nat (Spec.category x)) Spec.classic_decoder ""))
    by (intros x _; apply decoder_category).
  simpl bind. rewrite map_map.
  rewrite (assign_map _ Np.str (fun x => Spec.category x =? 0)).
  f_equal. apply map_ext. intros x. apply label_of_category.
Qed.

Lemma mod_ne0 (a b : Z) : b <> 0 -> Np.mod_ a b = a mod b.
Proof.
  intros H. unfold Np.mod_.
  destruct (Z.eqb_spec b 0); [contradiction | reflexivity].
Qed.

Lemma mod3_via_15 (x : Z) : x mod 3 = ((x - 1) mod 15 + 1) mod 3.
Proof.
  pose proof (Z.div_mod (x - 1) 15 ltac:(lia)) as E.
  replace x with ((x - 1) mod 15 + 1 + (5 * ((x - 1) / 15)) * 3) at 1 by lia.
  apply Z.mod_add. lia.
Qed.

Lemma mod5_via_15 (x : Z) : x mod 5 = ((x - 1) mod 15 + 1) mod 5.
Proof.
  pose proof (Z.div_mod (x - 1) 15 ltac:(lia)) as E.
  replace x with ((x - 1) mod 15 + 1 + (3 * ((x - 1) / 15)) * 5) at 1 by lia.
  apply Z.mod_add. lia.
Qed.

Lemma vector_category (x : Z) :
  Np.index Fizzbuzz.PATTERN (Np.mod_ (x - 1) 15) = Ok (Spec.category x).
Proof.
  rewrite mod_ne0 by lia.
  unfold Spec.category. rewrite (mod3_via_15 x), (mod5_via_15 x).
  pose proof (Z.mod_pos_bound (x - 1) 15 ltac:(lia)) as Hr.
  set (r := (x - 1) mod 15) in *.
  assert (r = 0 \/ r = 1 \/ r = 2 \/ r = 3 \/ r = 4 \/ r = 5 \/ r = 6 \/
          r = 7 \/ r = 8 \/ r = 9 \/ r = 10 \/ r = 11 \/ r = 12 \/
          r = 13 \/ r = 14) as Hc by lia.
  repeat (destruct Hc as [-> | Hc]; [reflexivity |]).
  rewrite Hc. reflexivity.
Qed.

Lemma binary_category (x : Z) :
  (row <- Np.index Compact.PATTERN_COMPACT (Np.of_bool (Np.mod_ x 3 =? 0)) ;;
   Np.index row (Np.of_bool (Np.mod_ x 5 =? 0))) = Ok (Spec.category x).
Proof.
  rewrite !mod_ne0 by lia. unfold Spec.category.
  destruct (x mod 3 =? 0), (x mod 5 =? 0); reflexivity.
Qed.

Lemma modular_category (x : Z) :
  (row <- Np.index Dimensional.PATTERN_MODULAR (Np.mod_ x 3) ;;
   Np.index row (Np.mod_ x 5)) = Ok (Spec.category x).
Proof.
  rewrite !mod_ne0 by lia. unfold Spec.category.
  pose proof (Z.mod_pos_bound x 3 ltac:(lia)) as H3.
  pose proof (Z.mod_pos_bound x 5 ltac:(lia)) as H5.
  assert (x mod 3 = 0 \/ x mod 3 = 1 \/ x mod 3 = 2) as [-> | [-> | ->]] by lia;
  assert (x mod 5 = 0 \/ x mod 5 = 1 \/ x mod 5 = 2 \/ x mod 5 = 3 \/
          x mod 5 = 4) as [-> | [-> | [-> | [-> | ->]]]] by lia;
  reflexivity.
Qed.

(** ** Every fixed-divisor function labels the positions 1..n pointwise *)

Lemma fizzbuzz_labels (n : Z) :
  Fizzbuzz.fizzbuzz n = Ok (map Spec.label (Np.arange 1 (n + 1))).
Proof.
  unfold Fizzbuzz.fizzbuzz.
  rewrite (take_map Fizzbuzz.PATTERN (fun x => Np.mod_ (x - 1) 15)
             Spec.category)
    by (intros x _; apply vector_category).
  simpl bind. apply decode_numbers.
Qed.

Lemma compact_labels (n : Z) :
  Compact.fizzbuzz n = Ok (map Spec.label (Np.arange 1 (n + 1))).
Proof.
  unfold Compact.fizzbuzz.
  rewrite (take2_map Compact.PATTERN_COMPACT _ _ Spec.category)
    by (intros x _; apply binary_category).
  simpl bind. apply decode_numbers.
Qed.

Lemma binary_labels (n : Z) :
  Dimensional.fizzbuzz_binary n = Ok (map Spec.label (Np.arange 1 (n + 1))).
Proof.
  unfold Dimensional.fizzbuzz_binary.
  rewrite (take2_map Dimensional.PATTERN_BINARY _ _ Spec.category)
    by (intros x _; apply binary_category).
  simpl bind. apply decode_numbers.
Qed.

Lemma modular_labels (n : Z) :
  Dimensional.fizzbuzz_modular n = Ok (map Spec.label (Np.arange 1 (n + 1))).
Proof.
  unfold Dimensional.fizzbuzz_modular.
  rewrite (take2_map Dimensional.PATTERN_MODULAR _ _ Spec.category)
    by (intros x _; apply modular_category).
  simpl bind. apply decode_numbers.
Qed.

Lemma vector_labels (n : Z) :
  Dimensional.fizzbuzz_vector n = Ok (map Spec.label (Np.arange 1 (n + 1))).
Proof.
  unfold Dimensional.fizzbuzz_vector.
  rewrite (take_map Dimensional.PATTERN_VECTOR (fun x => Np.mod_ (x - 1) 15)
             Spec.category)
    by (intros x _; apply vector_category).
  simpl bind. apply decode_numbers.
Qed.

(** ** The batched tensor *)

Lemma index_map_range {A : Type} (f : Z -> A) (n i : Z) :
  0 <= i < n -> Np.index (map f (Np.range n)) i = Ok (f i).
Proof.
  intros H. unfold Np.range.
  rewrite (index_in_range _ _ (f 0))
    by (rewrite length_map, arange_length; lia).
  rewrite (map_nth f), arange_nth by lia.
  f_equal. f_equal. lia.
Qed.

Lemma fill_labels (decoder : list string) (dec : Z -> string)
    (nf cf : Z -> Z -> Z) (batch_size sequence_length : Z) :
  (forall b p, cf b p <> 0 -> Np.index decoder (cf b p) = Ok (dec (cf b p))) ->
  Batched.fill decoder
    (map (fun b => map (nf b) (Np.range sequence_length)) (Np.range batch_size))
    (map (fun b => map (cf b) (Np.range sequence_length)) (Np.range batch_size))
    batch_size sequence_length
  = Ok (map (fun b =>
              map (fun p => if cf b p =? 0 then Np.str (nf b p)
                            else dec (cf b p))
                  (Np.range sequence_length))
            (Np.range batch_size)).
Proof.
  intros Hdec. unfold Batched.fill.
  apply mapM_ok. intros b Hb. apply arange_in in Hb.
  apply mapM_ok. intros p Hp. apply arange_in in Hp.
  rewrite !(index_map_range _ batch_size b) by lia. simpl bind.
  rewrite !(index_map_range _ sequence_length p) by lia. simpl bind.
  destruct (Z.eqb_spec (cf b p) 0) as [E | E]; [reflexivity |].
  apply Hdec. exact E.
Qed.

Lemma batched_labels (batch_size sequence_length offset : Z) :
  0 <= batch_size -> 0 <= sequence_length ->
  exists div_tensor nums,
    Batched.fizzbuzz_batched batch_size sequence_length offset =
    Ok (map (fun b =>
               map (fun p => Spec.label (offset + b * sequence_length + p + 1))
                   (Np.range sequence_length))
            (Np.range batch_size),
        div_tensor, nums).
Proof.
  intros Hb Hs. unfold Batched.fizzbuzz_batched.
  replace (batch_size <? 0) with false by (symmetry; apply Z.ltb_ge; lia).
  replace (sequence_length <? 0) with false by (symmetry; apply Z.ltb_ge; lia).
  simpl orb. cbv iota.
  match goal with
  | |- context [Batched.fill _ _ ?c] =>
      assert (c = map (fun b =>
                    map (fun p =>
                      Spec.category (offset + b * sequence_length + p + 1))
                      (Np.range sequence_length))
                    (Np.range batch_size)) as ->
  end.
  { rewrite !map_map. apply map_ext. intros b.
    rewrite !map_map. apply map_ext. intros p.
    simpl Np.dot. rewrite !mod_ne0 by lia. unfold Spec.category. lia. }
  rewrite (fill_labels _
             (fun c => nth (Z.to_nat c) Spec.classic_decoder "")
             (fun b p => offset + b * sequence_length + p + 1))
    by (intros b p _; apply decoder_category).
  simpl bind. do 2 eexists. f_equal. f_equal. f_equal.
  apply map_ext. intros b. apply map_ext. intros p.
  apply label_of_category.
Qed.

(** ** The period: [np.lcm.reduce] against the least common multiple *)

Ltac int64 :=
  unfold Int64.fits, Int64.wrap, Int64.min, Int64.max in *;
  change (2 ^ 63) with 9223372036854775808 in *;
  change (2 ^ 64) with 18446744073709551616 in *.

(** Closed instances of [Int64.fits]. *)
Ltac fits := vm_compute; split; discriminate.

Ltac all_fit :=
  repeat (apply Forall_cons; [fits |]); apply Forall_nil.

Lemma wrap_fits (x : Z) : Int64.fits x -> Int64.wrap x = x.
Proof. intros H. int64. rewrite Z.mod_small; lia. Qed.

(** [np.lcm] is the least common multiple, wrapped. *)
Lemma np_lcm_wraps (a b : Z) : Np.lcm a b = Int64.wrap (Z.lcm a b).
Proof.
  unfold Np.lcm. rewrite Z.gcd_abs_l, Z.gcd_abs_r.
  rewrite <- (Z.lcm_abs_l a b), <- (Z.lcm_abs_r (Z.abs a) b).
  unfold Z.lcm. rewrite Z.gcd_abs_l, Z.gcd_abs_r.
  pose proof (Z.gcd_nonneg a b) as Hg.
  destruct (Z.eqb_spec (Z.gcd a b) 0) as [E | E].
  - apply Z.gcd_eq_0 in E. destruct E as [-> ->]. reflexivity.
  - destruct (Z.gcd_divide_l (Z.abs a) (Z.abs b)) as [a' Ha].
    destruct (Z.gcd_divide_r (Z.abs a) (Z.abs b)) as [b' Hb].
    rewrite Z.gcd_abs_l, Z.gcd_abs_r in Ha, Hb.
    set (g := Z.gcd a b) in *.
    assert (0 <= a') by nia. assert (0 <= b') by nia.
    f_equal.
    rewrite Hb at 2. rewrite Ha at 1. rewrite !Z.div_mul by exact E.
    rewrite Ha, Hb. rewrite Z.abs_eq by nia. ring.
Qed.

Lemma np_lcm_is_lcm (a b : Z) :
  Z.lcm a b <= Int64.max -> Np.lcm a b = Z.lcm a b.
Proof.
  intros H. rewrite np_lcm_wraps. apply wrap_fits.
  pose proof (Z.lcm_nonneg a b). int64. lia.
Qed.

Lemma np_lcm_0_l (b : Z) : Np.lcm 0 b = 0.
Proof. rewrite np_lcm_wraps, Z.lcm_0_l. reflexivity. Qed.

Lemma np_lcm_0_r (a : Z) : Np.lcm a 0 = 0.
Proof. rewrite np_lcm_wraps, Z.lcm_0_r. reflexivity. Qed.

Lemma lcm_all_nonneg (ds : list Z) : 0 <= Spec.lcm_all ds.
Proof.
  destruct ds as [| d ds]; simpl; [lia | apply Z.lcm_nonneg].
Qed.

(** [Spec.lcm_all] is a common multiple, and divides every other one. *)
Lemma lcm_all_multiple (ds : list Z) (d : Z) :
  In d ds -> (d | Spec.lcm_all ds).
Proof.
  induction ds as [| x xs IH]; simpl; [contradiction |].
  intros [-> | H].
  - apply Z.divide_lcm_l.
  - apply Z.divide_trans with (Spec.lcm_all xs); [apply IH, H |].
    apply Z.divide_lcm_r.
Qed.

Lemma lcm_all_least (ds : list Z) (m : Z) :
  (forall d, In d ds -> (d | m)) -> (Spec.lcm_all ds | m).
Proof.
  induction ds as [| x xs IH]; simpl; intros H.
  - apply Z.divide_1_l.
  - apply Z.lcm_least; [apply H; left; reflexivity |].
    apply IH. intros d Hd. apply H. right. exact Hd.
Qed.

Lemma lcm_all_pos (ds : list Z) :
  Forall (fun d => 1 <= d) ds -> 1 <= Spec.lcm_all ds.
Proof.
  induction 1 as [| x xs Hx _ IH]; simpl; [lia |].
  pose proof (Z.lcm_nonneg x (Spec.lcm_all xs)).
  assert (Z.lcm x (Spec.lcm_all xs) <> 0); [| lia].
  intros E. apply Z.lcm_eq_0 in E. lia.
Qed.

Lemma lcm_all_zero (ds : list Z) : In 0 ds -> Spec.lcm_all ds = 0.
Proof.
  induction ds as [| x xs IH]; simpl; [contradiction |].
  intros [-> | H]; [apply Z.lcm_0_l |].
  rewrite (IH H). apply Z.lcm_0_r.
Qed.

Lemma lcm_all_nonzero (ds : list Z) : ~ In 0 ds -> Spec.lcm_all ds <> 0.
Proof.
  induction ds as [| x xs IH]; simpl; intros H E; [discriminate |].
  apply Z.lcm_eq_0 in E. destruct E as [-> | E]; [apply H; left; reflexivity |].
  apply IH; [intros Hin; apply H; right; exact Hin | exact E].
Qed.

(** Without overflow the reduction is the least common multiple: every
    intermediate result divides the final one. *)
Lemma fold_lcm (xs : list Z) (a : Z) :
  0 <= a ->
  0 < Z.lcm a (Spec.lcm_all xs) <= Int64.max ->
  fold_left Np.lcm xs a = Z.lcm a (Spec.lcm_all xs).
Proof.
  revert a. induction xs as [| y ys IH]; intros a Ha HL; simpl.
  - rewrite Z.lcm_1_r. lia.
  - assert (Z.lcm a (Z.lcm y (Spec.lcm_all ys)) =
            Z.lcm (Z.lcm a y) (Spec.lcm_all ys)) as E
      by apply Z.lcm_assoc.
    simpl in HL. rewrite E in HL |- *.
    assert (Z.lcm a y <= Int64.max) as Hay.
    { apply Z.le_trans with (Z.lcm (Z.lcm a y) (Spec.lcm_all ys));
        [| lia].
      apply Z.divide_pos_le; [lia | apply Z.divide_lcm_l]. }
    rewrite np_lcm_is_lcm by exact Hay.
    apply IH; [apply Z.lcm_nonneg | exact HL].
Qed.

Lemma fold_lcm_zero (xs : list Z) : fold_left Np.lcm xs 0 = 0.
Proof.
  induction xs as [| y ys IH]; simpl; [reflexivity |].
  rewrite np_lcm_0_l. exact IH.
Qed.

(** A zero divisor makes the reduction 0, whatever wrapped before it. *)
Lemma lcm_reduce_zero (ds : list Z) :
  In 0 ds -> Np.lcm_reduce ds = Ok 0.
Proof.
  destruct ds as [| x xs]; [contradiction |]. simpl Np.lcm_reduce.
  intros H. f_equal. revert x H.
  induction xs as [| y ys IH]; intros x [-> | H]; simpl.
  - reflexivity.
  - contradiction.
  - rewrite np_lcm_0_l. apply fold_lcm_zero.
  - destruct H as [-> | H].
    + rewrite np_lcm_0_r. apply fold_lcm_zero.
    + apply IH. right. exact H.
Qed.

(** The reduction agrees with the least common multiple as soon as one
    divisor is positive (a lone negative divisor is returned as it is)
    and the least common multiple is an int64 value. *)
Lemma lcm_reduce_lcm_all (ds : list Z) :
  Exists (fun d => 0 < d) ds ->
  Spec.lcm_all ds <= Int64.max ->
  Np.lcm_reduce ds = Ok (Spec.lcm_all ds).
Proof.
  intros H Hmax.
  destruct (in_dec Z.eq_dec 0 ds) as [H0 | H0].
  { rewrite (lcm_all_zero _ H0). apply lcm_reduce_zero, H0. }
  pose proof (lcm_all_nonzero _ H0) as Hnz.
  pose proof (lcm_all_nonneg ds) as Hnn.
  destruct ds as [| x [| y ys]].
  - inversion H.
  - inversion H as [? ? Hx | ? ? Hx]; [| inversion Hx].
    simpl. rewrite Z.lcm_1_r. f_equal. lia.
  - cbn [Np.lcm_reduce fold_left].
    assert (Spec.lcm_all (x :: y :: ys) =
            Z.lcm (Z.lcm x y) (Spec.lcm_all ys)) as E
      by (simpl; apply Z.lcm_assoc).
    rewrite E in *.
    assert (Z.lcm x y <= Int64.max) as Hxy.
    { apply Z.le_trans with (Z.lcm (Z.lcm x y) (Spec.lcm_all ys));
        [| exact Hmax].
      apply Z.divide_pos_le; [lia | apply Z.divide_lcm_l]. }
    rewrite np_lcm_is_lcm by exact Hxy.
    rewrite fold_lcm; [reflexivity | apply Z.lcm_nonneg | lia].
Qed.

Lemma lcm_reduce_total (ds : list Z) :
  ds <> [] -> exists p, Np.lcm_reduce ds = Ok p.
Proof.
  destruct ds as [| x xs]; [congruence |]. intros _. simpl. eauto.
Qed.

(** ** The decoder *)

Lemma arange_cons (lo hi : Z) :
  lo < hi -> Np.arange lo hi = lo :: Np.arange (lo + 1) hi.
Proof.
  intros H. rewrite (arange_split lo (lo + 1) hi) by lia.
  unfold Np.arange at 1. replace (lo + 1 - lo) with 1 by lia.
  simpl. f_equal. f_equal. lia.
Qed.

Lemma index_middle {A : Type} (pre suf : list A) (d : A) :
  Np.index (pre ++ d :: suf) (Z.of_nat (List.length pre)) = Ok d.
Proof.
  rewrite (index_in_range _ _ d) by (rewrite length_app; simpl; lia).
  rewrite Nat2Z.id, nth_middle. reflexivity.
Qed.

Lemma active_bit (c i : Z) :
  (Z.land (Z.shiftr c i) 1 =? 0) = negb (Z.testbit c i).
Proof.
  rewrite Z.testbit_odd.
  change 1 with (Z.ones 1). rewrite Z.land_ones by lia.
  change (2 ^ 1) with 2. rewrite Zmod_odd.
  destruct (Z.odd (Z.shiftr c i)); reflexivity.
Qed.

Lemma active_labels_ok (c : Z) (suf pre : list (Z * string)) (hi : Z) :
  hi = Z.of_nat (List.length pre) + Z.of_nat (List.length suf) ->
  Fizzbuzz.active_labels (pre ++ suf) (Z.of_nat (List.length pre))
    (map (fun i => Z.land (Z.shiftr c i) 1)
       (Np.arange (Z.of_nat (List.length pre)) hi))
  = Ok (Spec.bit_labels suf (Z.of_nat (List.length pre)) c).
Proof.
  revert pre. induction suf as [| [d l] suf IH]; intros pre Hhi.
  - simpl. rewrite arange_empty by (simpl in Hhi; lia). reflexivity.
  - rewrite arange_cons by (simpl List.length in Hhi; lia).
    simpl map. simpl Fizzbuzz.active_labels. rewrite active_bit.
    specialize (IH (pre ++ [(d, l)])).
    rewrite <- app_assoc, length_app in IH. simpl in IH.
    replace (Z.of_nat (List.length pre + 1))
      with (Z.of_nat (List.length pre) + 1) in IH by lia.
    specialize (IH ltac:(simpl List.length in Hhi; lia)).
    simpl Spec.bit_labels.
    destruct (Z.testbit c (Z.of_nat (List.length pre))); simpl negb; cbv iota.
    + rewrite index_middle. simpl bind. rewrite IH. reflexivity.
    + exact IH.
Qed.

Lemma decode_ok (spec : list (Z * string)) (c : Z) :
  Fizzbuzz.decode spec c =
  Ok (match Spec.bit_labels spec 0 c with
      | [] => "{}"
      | ls => String.concat "" ls
      end).
Proof.
  unfold Fizzbuzz.decode, Np.range.
  pose proof (active_labels_ok c spec [] _ eq_refl) as H. simpl in H.
  rewrite H. simpl bind.
  destruct (Spec.bit_labels spec 0 c); reflexivity.
Qed.

(** ** The pattern *)

Lemma bits_value_cons (b : bool) (bs : list bool) :
  Closed.bits_value (b :: bs) = Np.of_bool b + 2 * Closed.bits_value bs.
Proof. reflexivity. Qed.

Lemma dot_bits_from (bits : list bool) (m hi : Z) :
  0 <= m -> hi = m + Z.of_nat (List.length bits) ->
  Np.dot (map Np.of_bool bits) (map (fun i => 2 ^ i) (Np.arange m hi))
  = 2 ^ m * Closed.bits_value bits.
Proof.
  revert m. induction bits as [| b bs IH]; intros m Hm Hhi.
  - simpl. lia.
  - simpl List.length in Hhi. rewrite arange_cons by lia.
    simpl map. simpl Np.dot. rewrite bits_value_cons.
    rewrite (IH (m + 1)) by lia. rewrite Z.pow_add_r by lia.
    change (2 ^ 1) with 2. ring.
Qed.

Lemma dot_bits (bits : list bool) :
  Np.dot (map Np.of_bool bits)
    (map (fun i => 2 ^ i) (Np.range (Z.of_nat (List.length bits))))
  = Closed.bits_value bits.
Proof.
  unfold Np.range. rewrite (dot_bits_from bits 0) by lia.
  destruct (Closed.bits_value bits); reflexivity.
Qed.

Lemma bits_value_range (bits : list bool) :
  0 <= Closed.bits_value bits < 2 ^ Z.of_nat (List.length bits).
Proof.
  induction bits as [| b bs IH]; [simpl; lia |].
  rewrite bits_value_cons.
  replace (Z.of_nat (List.length (b :: bs)))
    with (Z.succ (Z.of_nat (List.length bs))) by (simpl List.length; lia).
  rewrite Z.pow_succ_r by lia.
  destruct b; simpl Np.of_bool; lia.
Qed.

Lemma bits_value_testbit (bits : list bool) (j : nat) :
  Z.testbit (Closed.bits_value bits) (Z.of_nat j) = nth j bits false.
Proof.
  revert j. induction bits as [| b bs IH]; intros j.
  - simpl. rewrite Z.testbit_0_l. destruct j; reflexivity.
  - rewrite bits_value_cons.
    replace (Np.of_bool b + 2 * Closed.bits_value bs)
      with (2 * Closed.bits_value bs + Z.b2z b)
      by (unfold Np.of_bool, Z.b2z; destruct b; lia).
    destruct j as [| j].
    + simpl. apply Z.testbit_0_r.
    + rewrite Nat2Z.inj_succ, Z.testbit_succ_r by lia. simpl. apply IH.
Qed.

Lemma div_bits_length (spec : list (Z * string)) (n : Z) :
  List.length (Closed.div_bits spec n) = List.length spec.
Proof. unfold Closed.div_bits. rewrite !length_map. reflexivity. Qed.

Lemma create_pattern_table (spec : list (Z * string)) (period : Z) :
  Np.lcm_reduce (map fst spec) = Ok period ->
  Fizzbuzz.create_pattern spec =
  Ok (Closed.table spec period, Closed.decoder spec).
Proof.
  intros H. unfold Fizzbuzz.create_pattern. rewrite H. simpl bind.
  rewrite (mapM_ok _ (Closed.entry spec))
    by (intros c _; apply decode_ok).
  simpl bind. unfold Closed.table, Closed.decoder, Np.matvec.
  f_equal. f_equal. rewrite !map_map. apply map_ext. intros n.
  unfold Closed.div_bits. rewrite (map_map _ Np.of_bool). reflexivity.
Qed.

Lemma powers_exact (k : Z) :
  k <= 63 ->
  map (fun i => Int64.wrap (2 ^ i)) (Np.range k) =
  map (fun i => 2 ^ i) (Np.range k).
Proof.
  intros Hk. apply map_ext_in. intros i Hi. apply arange_in in Hi.
  apply wrap_fits.
  pose proof (Z.pow_pos_nonneg 2 i ltac:(lia) ltac:(lia)).
  pose proof (Z.pow_le_mono_r 2 i 62 ltac:(lia) ltac:(lia)) as Hle.
  int64. change (2 ^ 62) with 4611686018427387904 in Hle. lia.
Qed.

(** With at most 63 divisors nothing wraps in the categories. *)
Lemma table_pattern (spec : list (Z * string)) (period : Z) :
  Z.of_nat (List.length spec) <= 63 ->
  Closed.table spec period =
  Closed.pattern spec (Int64.wrap (period + 1) - 1).
Proof.
  intros Hk. unfold Closed.table, Closed.pattern.
  replace (Int64.wrap (period + 1) - 1 + 1)
    with (Int64.wrap (period + 1)) by lia.
  apply map_ext. intros n.
  rewrite powers_exact by exact Hk.
  rewrite <- (div_bits_length spec n), dot_bits.
  apply wrap_fits.
  pose proof (bits_value_range (Closed.div_bits spec n)) as Hr.
  rewrite div_bits_length in Hr.
  pose proof (Z.pow_le_mono_r 2 (Z.of_nat (List.length spec)) 63
                ltac:(lia) Hk) as Hle.
  int64. lia.
Qed.

Lemma create_pattern_closed (spec : list (Z * string)) (period : Z) :
  Np.lcm_reduce (map fst spec) = Ok period ->
  Int64.fits (period + 1) ->
  Z.of_nat (List.length spec) <= 63 ->
  Fizzbuzz.create_pattern spec =
  Ok (Closed.pattern spec period, Closed.decoder spec).
Proof.
  intros H Hp Hk.
  rewrite (create_pattern_table spec period H), table_pattern by exact Hk.
  rewrite wrap_fits by exact Hp.
  replace (period + 1 - 1) with period by lia. reflexivity.
Qed.

Lemma pattern_length (spec : list (Z * string)) (period : Z) :
  Z.of_nat (List.length (Closed.pattern spec period)) = Z.max 0 period.
Proof.
  unfold Closed.pattern. rewrite length_map, arange_length. lia.
Qed.

Lemma pattern_nth (spec : list (Z * string)) (period : Z) (i : nat) (c : Z) :
  nth_error (Closed.pattern spec period) i = Some c ->
  c = Closed.bits_value (Closed.div_bits spec (Z.of_nat i + 1)).
Proof.
  intros H. unfold Closed.pattern in H.
  rewrite nth_error_map in H.
  destruct (nth_error (Np.arange 1 (period + 1)) i) as [n |] eqn:E;
    [| discriminate].
  inversion H; subst c; clear H.
  assert (i < Z.to_nat (period + 1 - 1))%nat as Hi.
  { rewrite <- arange_length. apply nth_error_Some. congruence. }
  apply (nth_error_nth _ _ 0) in E. rewrite arange_nth in E by exact Hi.
  subst n. do 2 f_equal. lia.
Qed.

Lemma decoder_length (spec : list (Z * string)) :
  Z.of_nat (List.length (Closed.decoder spec)) =
  2 ^ Z.of_nat (List.length spec).
Proof.
  unfold Closed.decoder, Np.range. rewrite length_map, arange_length.
  pose proof (Z.pow_pos_nonneg 2 (Z.of_nat (List.length spec))). lia.
Qed.

Lemma decoder_nth (spec : list (Z * string)) (c : Z) :
  0 <= c < 2 ^ Z.of_nat (List.length spec) ->
  nth_error (Closed.decoder spec) (Z.to_nat c) = Some (Closed.entry spec c).
Proof.
  intros H. unfold Closed.decoder, Np.range.
  rewrite nth_error_map.
  rewrite (nth_error_nth' _ 0) by (rewrite arange_length; lia).
  rewrite arange_nth by lia. simpl. do 2 f_equal. lia.
Qed.

(** ** The lookup over a built table *)

Lemma index_nth_error {A : Type} (a : list A) (i : Z) (x : A) :
  0 <= i -> nth_error a (Z.to_nat i) = Some x -> Np.index a i = Ok x.
Proof.
  intros Hi H.
  assert (Z.to_nat i < List.length a)%nat
    by (apply nth_error_Some; congruence).
  rewrite (index_in_range _ _ x) by lia.
  rewrite (nth_error_nth _ _ x H). reflexivity.
Qed.

Lemma pattern_index (spec : list (Z * string)) (period x : Z) :
  1 <= period ->
  Np.index (Closed.pattern spec period)
    (Np.mod_ (x - 1) (Z.of_nat (List.length (Closed.pattern spec period))))
  = Ok (Closed.category spec period x).
Proof.
  intros Hp. rewrite pattern_length, Z.max_r by lia.
  rewrite mod_ne0 by lia.
  pose proof (Z.mod_pos_bound (x - 1) period ltac:(lia)) as Hr.
  apply index_nth_error; [lia |].
  unfold Closed.pattern. rewrite nth_error_map.
  rewrite (nth_error_nth' _ 0) by (rewrite arange_length; lia).
  rewrite arange_nth by lia. unfold Closed.category. cbn [option_map].
  do 3 f_equal. lia.
Qed.

Lemma category_range (spec : list (Z * string)) (period x : Z) :
  0 <= Closed.category spec period x < 2 ^ Z.of_nat (List.length spec).
Proof.
  unfold Closed.category.
  rewrite <- (div_bits_length spec ((x - 1) mod period + 1)).
  apply bits_value_range.
Qed.

Lemma decoder_index (spec : list (Z * string)) (c : Z) :
  0 <= c < 2 ^ Z.of_nat (List.length spec) ->
  Np.index (Closed.decoder spec) c = Ok (Closed.entry spec c).
Proof.
  intros H. apply index_nth_error; [lia |]. apply decoder_nth. exact H.
Qed.

Lemma lookup_closed (spec : list (Z * string)) (period : Z) (nums : list Z) :
  1 <= period ->
  Fizzbuzz.lookup (Closed.pattern spec period) (Closed.decoder spec) nums =
  Ok (map (Closed.output spec period) nums).
Proof.
  intros Hp. unfold Fizzbuzz.lookup.
  rewrite (take_map _ _ (Closed.category spec period))
    by (intros x _; apply pattern_index; exact Hp).
  simpl bind.
  rewrite (take_map _ _
             (fun x => Closed.entry spec (Closed.category spec period x)))
    by (intros x _; apply decoder_index, category_range).
  simpl bind. rewrite map_map.
  rewrite (assign_map _ Np.str
             (fun x => String.eqb
                         (Closed.entry spec (Closed.category spec period x))
                         "{}")).
  reflexivity.
Qed.

Lemma category_periodic (spec : list (Z * string)) (period x : Z) :
  Closed.category spec period (x + period) = Closed.category spec period x.
Proof.
  unfold Closed.category.
  replace (x + period - 1) with (x - 1 + 1 * period) by lia.
  rewrite Z_mod_plus_full. reflexivity.
Qed.

(** For a valid spec the table entry of a position holds the
    divisibility bits of the position itself. *)
Lemma div_bits_mod_period (spec : list (Z * string)) (x : Z) :
  Forall (fun d => 1 <= fst d) spec ->
  Closed.div_bits spec ((x - 1) mod Spec.lcm_all (map fst spec) + 1) =
  Closed.div_bits spec x.
Proof.
  intros Hv. unfold Closed.div_bits.
  set (P := Spec.lcm_all (map fst spec)).
  apply map_ext_in. intros d Hd.
  assert (1 <= d) as Hd1.
  { apply in_map_iff in Hd. destruct Hd as [[d' l] [<- Hin]].
    rewrite Forall_forall in Hv. apply (Hv _ Hin). }
  destruct (lcm_all_multiple _ _ Hd) as [t Ht]. fold P in Ht.
  rewrite !mod_ne0 by lia. f_equal.
  assert (1 <= P) as HP.
  { apply lcm_all_pos. apply Forall_forall. intros y Hy.
    apply in_map_iff in Hy. destruct Hy as [[d' l] [<- Hin]].
    rewrite Forall_forall in Hv. apply (Hv _ Hin). }
  pose proof (Z.div_mod (x - 1) P ltac:(lia)) as E.
  replace x with ((x - 1) mod P + 1 + (t * ((x - 1) / P)) * d) at 2 by nia.
  symmetry. apply Z.mod_add. lia.
Qed.

(** ** Labels as strings *)

Lemma append_empty_r (s : string) : String.append s "" = s.
Proof. induction s as [| a s IH]; simpl; [| rewrite IH]; reflexivity. Qed.

Lemma concat_bit_labels (spec : list (Z * string)) (j c : Z) :
  String.concat "" (Spec.bit_labels spec j c) = Spec.set_labels spec j c.
Proof.
  revert j. induction spec as [| [d l] rest IH]; intros j; simpl.
  - reflexivity.
  - destruct (Z.testbit c j); [| apply IH].
    rewrite <- IH.
    destruct (Spec.bit_labels rest (j + 1) c) as [| l' ls] eqn:E.
    + simpl. symmetry. apply append_empty_r.
    + reflexivity.
Qed.

Lemma bit_labels_nil (spec : list (Z * string)) (j c : Z) :
  Spec.bit_labels spec j c = [] ->
  forall t, j <= t < j + Z.of_nat (List.length spec) -> Z.testbit c t = false.
Proof.
  revert j. induction spec as [| [d l] rest IH]; intros j H t Ht.
  - simpl in Ht. lia.
  - simpl in H. destruct (Z.testbit c j) eqn:E; [discriminate |].
    destruct (Z.eq_dec t j) as [-> | Hne]; [exact E |].
    apply (IH (j + 1) H). simpl List.length in Ht. lia.
Qed.

Lemma entry_zero (spec : list (Z * string)) : Closed.entry spec 0 = "{}".
Proof.
  unfold Closed.entry.
  assert (forall j, Spec.bit_labels spec j 0 = []) as ->; [| reflexivity].
  induction spec as [| [d l] rest IH]; intros j; simpl; [reflexivity |].
  rewrite Z.testbit_0_l. apply IH.
Qed.

Lemma entry_positive (spec : list (Z * string)) (c : Z) :
  0 < c < 2 ^ Z.of_nat (List.length spec) ->
  Closed.entry spec c = Spec.set_labels spec 0 c.
Proof.
  intros Hc. unfold Closed.entry.
  rewrite <- concat_bit_labels.
  destruct (Spec.bit_labels spec 0 c) as [| l ls] eqn:E; [| reflexivity].
  exfalso.
  assert (c = 0); [| lia].
  apply Z.bits_inj_0. intros t.
  destruct (Z.lt_ge_cases t 0) as [Hneg | Hpos];
    [apply Z.testbit_neg_r; exact Hneg |].
  destruct (Z.lt_ge_cases t (Z.of_nat (List.length spec))) as [Hlo | Hhi].
  - apply (bit_labels_nil spec 0 c E). lia.
  - rewrite <- (Z.mod_small c (2 ^ Z.of_nat (List.length spec))) by lia.
    apply Z.mod_pow2_bits_high. lia.
Qed.

(** ** Ranges looked up through the batched tensor *)

Lemma range_succ (n : nat) :
  Np.range (Z.of_nat (S n)) = Np.range (Z.of_nat n) ++ [Z.of_nat n].
Proof.
  unfold Np.range.
  rewrite (arange_split 0 (Z.of_nat n) (Z.of_nat (S n))) by lia.
  f_equal. rewrite arange_cons by lia. rewrite arange_empty by lia.
  reflexivity.
Qed.

Lemma arange_from (lo n : Z) :
  Np.arange lo (lo + n) = map (fun p => lo + p) (Np.range n).
Proof.
  unfold Np.range, Np.arange. rewrite map_map.
  replace (lo + n - lo) with (n - 0) by lia.
  apply map_ext. intros i. lia.
Qed.

Lemma concat_rows {A : Type} (f : Z -> A) (s : Z) (n : nat) :
  0 <= s ->
  List.concat
    (map (fun b => map (fun p => f (b * s + p)) (Np.range s))
         (Np.range (Z.of_nat n)))
  = map f (Np.range (Z.of_nat n * s)).
Proof.
  intros Hs. induction n as [| n IH].
  - reflexivity.
  - rewrite range_succ, map_app, concat_app, IH. simpl List.concat.
    rewrite app_nil_r. unfold Np.range.
    rewrite (arange_split 0 (Z.of_nat n * s) (Z.of_nat (S n) * s)) by nia.
    rewrite map_app. f_equal.
    replace (Z.of_nat (S n) * s) with (Z.of_nat n * s + s) by lia.
    rewrite arange_from, map_map. reflexivity.
Qed.

Lemma batched_concat (batch_size sequence_length offset : Z) :
  0 <= batch_size -> 0 <= sequence_length ->
  exists rows div_tensor nums,
    Batched.fizzbuzz_batched batch_size sequence_length offset =
      Ok (rows, div_tensor, nums) /\
    List.concat rows =
      map Spec.label
        (Np.arange (offset + 1) (offset + 1 + batch_size * sequence_length)).
Proof.
  intros Hb Hs.
  destruct (batched_labels batch_size sequence_length offset Hb Hs)
    as [t [nums E]].
  eexists _, t, nums. split; [exact E |].
  rewrite <- (Z2Nat.id batch_size Hb).
  rewrite (map_ext _
             (fun b =>
                map (fun p =>
                       Spec.label (offset + 1 + (b * sequence_length + p)))
                    (Np.range sequence_length)))
    by (intros b; apply map_ext; intros p; f_equal; lia).
  rewrite (concat_rows (fun q => Spec.label (offset + 1 + q))) by exact Hs.
  rewrite arange_from, map_map. reflexivity.
Qed.



(** * The claims *)

(** C1. For the divisor spec [(3, "Fizz"); (5, "Buzz")], looking up the
    positions 1 to 15 gives exactly "1", "2", "Fizz", "4", "Buzz", "Fizz",
    "7", "8", "Fizz", "Buzz", "11", "Fizz", "13", "14", "FizzBuzz": through
    [fizzbuzz(15)] and its constant table, through the table that
    [create_pattern] builds for the spec, and through the batched tensor. *)
Theorem classic_first_fifteen :
  Fizzbuzz.fizzbuzz 15 = Ok Spec.first_fifteen /\
  (exists table decoder,
     Fizzbuzz.create_pattern Spec.classic = Ok (table, decoder) /\
     Fizzbuzz.lookup table decoder (Np.arange 1 (1 + 15)) =
       Ok Spec.first_fifteen) /\
  Batched.lookup_range 1 15 = Ok Spec.first_fifteen.
Proof.
  split; [vm_compute; reflexivity |].
  split; [| vm_compute; reflexivity].
  exists Fizzbuzz.PATTERN, Fizzbuzz.DECODER.
  split; vm_compute; reflexivity.
Qed.

Lemma valid_has_positive (spec : list (Z * string)) :
  Spec.valid spec -> Exists (fun d => 0 < d) (map fst spec).
Proof.
  intros [Hne Hall]. destruct spec as [| [d l] rest]; [congruence |].
  inversion Hall; subst. simpl in *. apply Exists_cons_hd. lia.
Qed.

Lemma valid_divisors (spec : list (Z * string)) :
  Spec.valid spec -> Forall (fun d => 1 <= d) (map fst spec).
Proof.
  intros [_ Hall]. apply Forall_forall. intros d Hd.
  apply in_map_iff in Hd. destruct Hd as [x [<- Hin]].
  rewrite Forall_forall in Hall. apply Hall, Hin.
Qed.

Lemma table_length (spec : list (Z * string)) (period : Z) :
  Z.of_nat (List.length (Closed.table spec period)) =
  Z.max 0 (Int64.wrap (period + 1) - 1).
Proof.
  unfold Closed.table. rewrite length_map, arange_length. lia.
Qed.

Lemma machine_period (spec : list (Z * string)) :
  Spec.valid spec -> Spec.period_fits spec ->
  Np.lcm_reduce (map fst spec) = Ok (Spec.lcm_all (map fst spec)).
Proof.
  intros Hv [_ Hp]. apply lcm_reduce_lcm_all.
  - apply valid_has_positive, Hv.
  - int64. lia.
Qed.

(** Inside the machine's reach the table is the exact one. *)
Lemma create_pattern_machine (spec : list (Z * string)) :
  Spec.valid spec -> Spec.machine spec ->
  Fizzbuzz.create_pattern spec =
  Ok (Closed.pattern spec (Spec.lcm_all (map fst spec)), Closed.decoder spec).
Proof.
  intros Hv [Hp Hk]. apply create_pattern_closed.
  - apply machine_period; assumption.
  - apply Hp.
  - exact Hk.
Qed.

(** C2, as stated, fails on the code: [np.lcm] works in int64 and wraps.
    The least common multiple of 274177 and 67280421310721 is
    [2^64 + 1]; the reduction returns 1 and the pattern has one
    entry. *)
Lemma period_wraps :
  Spec.lcm_all [274177; 67280421310721] = 18446744073709551617 /\
  Fizzbuzz.create_pattern [(274177, "Fizz"); (67280421310721, "Buzz")] =
    Ok ([0], ["{}"; "Fizz"; "Buzz"; "FizzBuzz"]).
Proof. split; vm_compute; reflexivity. Qed.

(** C2, amended. For every divisor spec with at least one positive
    divisor, whose divisors are int64 values and whose least common
    multiple can be counted past in int64, [create_pattern] returns a
    pattern whose length, the period, is the least common multiple of
    all the divisors of the spec. *)
Theorem period_is_lcm (spec : list (Z * string)) :
  Exists (fun d => 0 < fst d) spec ->
  Spec.period_fits spec ->
  exists pattern decoder,
    Fizzbuzz.create_pattern spec = Ok (pattern, decoder) /\
    Z.of_nat (List.length pattern) = Spec.lcm_all (map fst spec).
Proof.
  intros H [_ Hp].
  assert (Exists (fun d => 0 < d) (map fst spec)) as H'.
  { apply Exists_exists in H. destruct H as [x [Hin Hx]].
    apply Exists_exists. exists (fst x). split; [| exact Hx].
    apply in_map, Hin. }
  exists (Closed.table spec (Spec.lcm_all (map fst spec))).
  exists (Closed.decoder spec).
  split.
  - apply create_pattern_table, lcm_reduce_lcm_all; [exact H' |].
    int64. lia.
  - rewrite table_length, wrap_fits by exact Hp.
    pose proof (lcm_all_nonneg (map fst spec)). lia.
Qed.

(** The three-divisor scenario: the period of
    [(3, "Fizz"); (5, "Buzz"); (7, "Bazz")] is 105. *)
Lemma period_is_lcm_witness :
  Spec.lcm_all (map fst Spec.fizzbuzzbazz) = 105 /\
  exists pattern decoder,
    Fizzbuzz.create_pattern Spec.fizzbuzzbazz = Ok (pattern, decoder) /\
    Z.of_nat (List.length pattern) = Spec.lcm_all (map fst Spec.fizzbuzzbazz).
Proof.
  split; [reflexivity |].
  apply (period_is_lcm Spec.fizzbuzzbazz).
  - apply Exists_cons_hd. simpl. lia.
  - split; [all_fit | fits].
Defined.

(** C3, as stated, fails on the code: when the least common multiple
    wraps, the indices below the period are not all in the pattern.  For
    the divisors 274177 and 67280421310721 the period is [2^64 + 1] and
    the pattern has one entry: index 1 has no category. *)
Lemma category_missing :
  exists pattern decoder,
    Fizzbuzz.create_pattern [(274177, "Fizz"); (67280421310721, "Buzz")] =
      Ok (pattern, decoder) /\
    1 < Spec.lcm_all [274177; 67280421310721] /\
    nth_error pattern 1 = None.
Proof.
  exists [0], ["{}"; "Fizz"; "Buzz"; "FizzBuzz"].
  repeat split; vm_compute; reflexivity.
Qed.

(** C3, amended. For every valid divisor spec within the machine's
    reach (int64 divisors, at most 63 of them, a least common multiple
    that int64 can count past) and every index [i] below the period,
    bit [j] of [categories[i]] is 1 exactly when [i + 1] is a multiple
    of the [j]-th divisor, bit 0 being the first divisor of the spec;
    the category has no other bit. *)
Theorem category_bits (spec : list (Z * string)) :
  Spec.valid spec ->
  Spec.machine spec ->
  exists pattern decoder,
    Fizzbuzz.create_pattern spec = Ok (pattern, decoder) /\
    Z.of_nat (List.length pattern) = Spec.lcm_all (map fst spec) /\
    forall (i j : nat) (c d : Z),
      nth_error pattern i = Some c ->
      nth_error (map fst spec) j = Some d ->
      0 <= c < 2 ^ Z.of_nat (List.length spec) /\
      (Z.testbit c (Z.of_nat j) = true <-> (Z.of_nat i + 1) mod d = 0).
Proof.
  intros Hv Hm.
  pose proof (valid_divisors spec Hv) as Hdiv.
  exists (Closed.pattern spec (Spec.lcm_all (map fst spec))).
  exists (Closed.decoder spec).
  split; [apply create_pattern_machine; assumption |].
  split; [rewrite pattern_length;
          pose proof (lcm_all_nonneg (map fst spec)); lia |].
  intros i j c d Hc Hd.
  apply pattern_nth in Hc. subst c. split.
  - rewrite <- (div_bits_length spec (Z.of_nat i + 1)).
    apply bits_value_range.
  - rewrite bits_value_testbit. unfold Closed.div_bits.
    rewrite (nth_indep _ false ((fun d => Np.mod_ (Z.of_nat i + 1) d =? 0) 0))
      by (rewrite length_map; apply nth_error_Some; congruence).
    rewrite (map_nth (fun d => Np.mod_ (Z.of_nat i + 1) d =? 0)).
    rewrite (nth_error_nth _ _ 0 Hd).
    assert (1 <= d) as Hd1.
    { rewrite Forall_forall in Hdiv. apply Hdiv.
      apply (nth_error_In _ _ Hd). }
    rewrite mod_ne0 by lia. apply Z.eqb_eq.
Qed.

Lemma classic_machine : Spec.machine Spec.classic.
Proof.
  split; [split; [all_fit | fits] |].
  vm_compute. discriminate.
Qed.

Lemma fizzbuzzbazz_machine : Spec.machine Spec.fizzbuzzbazz.
Proof.
  split; [split; [all_fit | fits] |].
  vm_compute. discriminate.
Qed.

Lemma category_bits_witness :
  exists pattern decoder,
    Fizzbuzz.create_pattern Spec.classic = Ok (pattern, decoder) /\
    Z.of_nat (List.length pattern) = Spec.lcm_all (map fst Spec.classic) /\
    forall (i j : nat) (c d : Z),
      nth_error pattern i = Some c ->
      nth_error (map fst Spec.classic) j = Some d ->
      0 <= c < 2 ^ Z.of_nat (List.length Spec.classic) /\
      (Z.testbit c (Z.of_nat j) = true <-> (Z.of_nat i + 1) mod d = 0).
Proof.
  apply (category_bits Spec.classic).
  - split; [discriminate |]. repeat constructor; simpl; lia.
  - apply classic_machine.
Defined.

(** C4. For every valid divisor spec with [k] divisors the decoder that
    [create_pattern] builds has exactly [2^k] entries, one for each
    category of [0, 2^k); entry 0 is the placeholder, and every entry
    [c > 0] is the concatenation, in spec order, of exactly the labels
    whose bit is set in [c]. *)
Theorem decoder_entries (spec : list (Z * string)) :
  Spec.valid spec ->
  exists pattern decoder,
    Fizzbuzz.create_pattern spec = Ok (pattern, decoder) /\
    Z.of_nat (List.length decoder) = 2 ^ Z.of_nat (List.length spec) /\
    nth_error decoder 0 = Some "{}" /\
    forall c, 0 < c < 2 ^ Z.of_nat (List.length spec) ->
      nth_error decoder (Z.to_nat c) = Some (Spec.set_labels spec 0 c).
Proof.
  intros Hv.
  destruct (lcm_reduce_total (map fst spec)) as [p Hp].
  { destruct Hv as [Hne _]. destruct spec; [congruence | discriminate]. }
  exists (Closed.table spec p), (Closed.decoder spec).
  split; [apply create_pattern_table, Hp |].
  split; [apply decoder_length |].
  pose proof (Z.pow_pos_nonneg 2 (Z.of_nat (List.length spec))
                ltac:(lia) ltac:(lia)) as Hpow.
  split.
  - change 0%nat with (Z.to_nat 0).
    rewrite decoder_nth by lia. rewrite entry_zero. reflexivity.
  - intros c Hc. rewrite decoder_nth by lia.
    rewrite entry_positive by exact Hc. reflexivity.
Qed.

(** The three-divisor scenario: category [2^3 - 1] decodes to
    "FizzBuzzBazz". *)
Lemma decoder_entries_witness :
  Spec.set_labels Spec.fizzbuzzbazz 0 (2 ^ 3 - 1) = "FizzBuzzBazz" /\
  exists pattern decoder,
    Fizzbuzz.create_pattern Spec.fizzbuzzbazz = Ok (pattern, decoder) /\
    Z.of_nat (List.length decoder) =
      2 ^ Z.of_nat (List.length Spec.fizzbuzzbazz) /\
    nth_error decoder 0 = Some "{}" /\
    forall c, 0 < c < 2 ^ Z.of_nat (List.length Spec.fizzbuzzbazz) ->
      nth_error decoder (Z.to_nat c) =
        Some (Spec.set_labels Spec.fizzbuzzbazz 0 c).
Proof.
  split; [reflexivity |].
  apply (decoder_entries Spec.fizzbuzzbazz).
  split; [discriminate |].
  repeat constructor; simpl; lia.
Defined.





(** C7, as stated, fails on the code: a position whose category is 0 is
    written as its own number, and the numbers of [i] and [i + period]
    differ.  For the classic spec the period is 15, position 1 gives "1"
    and position 16 gives "16". *)
Lemma output_not_periodic :
  exists table decoder,
    Fizzbuzz.create_pattern Spec.classic = Ok (table, decoder) /\
    Z.of_nat (List.length table) = 15 /\
    Fizzbuzz.lookup table decoder [1] = Ok ["1"] /\
    Fizzbuzz.lookup table decoder [1 + 15] = Ok ["16"] /\
    String.eqb "1" "16" = false /\
    (r <- Fizzbuzz.fizzbuzz 16 ;; Ok (nth_error r 0, nth_error r 15)) =
      Ok (Some "1", Some "16").
Proof.
  exists Fizzbuzz.PATTERN, Fizzbuzz.DECODER.
  repeat split; vm_compute; reflexivity.
Qed.

Lemma to_int_proper (x : Z) :
  Z.to_int x <> Decimal.Pos Decimal.Nil /\
  Z.to_int x <> Decimal.Neg Decimal.Nil.
Proof.
  split; intros E;
    (assert (x = 0) as ->
       by (rewrite <- (DecimalZ.of_to x), E; reflexivity));
    discriminate E.
Qed.

(** Different integers have different numerals. *)
Lemma str_inj (x y : Z) : Np.str x = Np.str y -> x = y.
Proof.
  intros E. apply DecimalZ.to_int_inj.
  destruct (to_int_proper x) as [Hx1 Hx2].
  destruct (to_int_proper y) as [Hy1 Hy2].
  pose proof (NilZero.isi (Z.to_int x) Hx1 Hx2) as Ex.
  pose proof (NilZero.isi (Z.to_int y) Hy1 Hy2) as Ey.
  unfold Np.str in E. rewrite E in Ex. congruence.
Qed.

(** C7, amended. For every valid divisor spec within the machine's
    reach and every position [i >= 1] such that [i + period] is an int64
    value, the category looked up at [i] is the category looked up at
    [i + period], and so is the decoded cell; the output at both
    positions is that cell, unless the cell is the placeholder, in which
    case each position is written as its own decimal numeral, and the
    two numerals differ. *)
Theorem category_periodic_lookup (spec : list (Z * string)) (i : Z) :
  Spec.valid spec -> Spec.machine spec ->
  1 <= i -> Int64.fits (i + Spec.lcm_all (map fst spec)) ->
  exists table decoder period c s,
    Fizzbuzz.create_pattern spec = Ok (table, decoder) /\
    Z.of_nat (List.length table) = period /\
    period = Spec.lcm_all (map fst spec) /\
    Np.index table (Np.mod_ (i - 1) period) = Ok c /\
    Np.index table (Np.mod_ (i + period - 1) period) = Ok c /\
    Np.index decoder c = Ok s /\
    Fizzbuzz.lookup table decoder [i] =
      Ok [if String.eqb s "{}" then Np.str i else s] /\
    Fizzbuzz.lookup table decoder [i + period] =
      Ok [if String.eqb s "{}" then Np.str (i + period) else s] /\
    Np.str i <> Np.str (i + period).
Proof.
  intros Hv Hm Hi _.
  pose proof (lcm_all_pos _ (valid_divisors spec Hv)) as HP.
  set (P := Spec.lcm_all (map fst spec)) in *.
  assert (Z.of_nat (List.length (Closed.pattern spec P)) = P) as Hlen
    by (rewrite pattern_length; lia).
  exists (Closed.pattern spec P), (Closed.decoder spec), P.
  exists (Closed.category spec P i).
  exists (Closed.entry spec (Closed.category spec P i)).
  split; [apply create_pattern_machine; assumption |].
  split; [exact Hlen |].
  split; [reflexivity |].
  split.
  { pose proof (pattern_index spec P i HP) as E.
    rewrite Hlen in E. exact E. }
  split.
  { pose proof (pattern_index spec P (i + P) HP) as E.
    rewrite Hlen, category_periodic in E. exact E. }
  split; [apply decoder_index, category_range |].
  rewrite !lookup_closed by exact HP. simpl map.
  unfold Closed.output. rewrite category_periodic.
  split; [reflexivity |]. split; [reflexivity |].
  intros E. apply str_inj in E. lia.
Qed.

Lemma category_periodic_lookup_witness :
  exists table decoder period c s,
    Fizzbuzz.create_pattern Spec.classic = Ok (table, decoder) /\
    Z.of_nat (List.length table) = period /\
    period = Spec.lcm_all (map fst Spec.classic) /\
    Np.index table (Np.mod_ (3 - 1) period) = Ok c /\
    Np.index table (Np.mod_ (3 + period - 1) period) = Ok c /\
    Np.index decoder c = Ok s /\
    Fizzbuzz.lookup table decoder [3] =
      Ok [if String.eqb s "{}" then Np.str 3 else s] /\
    Fizzbuzz.lookup table decoder [3 + period] =
      Ok [if String.eqb s "{}" then Np.str (3 + period) else s] /\
    Np.str 3 <> Np.str (3 + period).
Proof.
  apply (category_periodic_lookup Spec.classic 3).
  - split; [discriminate |]. repeat constructor; simpl; lia.
  - apply classic_machine.
  - lia.
  - fits.
Defined.

(** C8, as stated, fails on the code: no input is checked.  A spec with
    the divisor 0 is not refused: the builder returns an empty table and
    a decoder; [fizzbuzz(-1)] returns the empty sequence. *)
Lemma invalid_input_accepted :
  Fizzbuzz.create_pattern [(0, "Fizz")] = Ok ([], ["{}"; "Fizz"]) /\
  Fizzbuzz.fizzbuzz (-1) = Ok [].
Proof. repeat split; vm_compute; reflexivity. Qed.

(** C8, amended. [create_pattern] raises on the empty spec, where the
    reduction of the least common multiple has nothing to fold; every
    other spec of int64 divisors is accepted, non-positive divisors
    included, and a spec with the divisor 0 gives an empty table with
    its [2^k] decoder entries; [fizzbuzz(n)] with [n <= 0], [n + 1] an
    int64 value, returns the empty sequence. *)
Theorem input_handling (spec : list (Z * string)) (n : Z) :
  spec <> [] -> Forall (fun d => Int64.fits (fst d)) spec ->
  n <= 0 -> Int64.fits (n + 1) ->
  Fizzbuzz.create_pattern [] = Raise ReduceError /\
  (exists table decoder,
     Fizzbuzz.create_pattern spec = Ok (table, decoder) /\
     Z.of_nat (List.length decoder) = 2 ^ Z.of_nat (List.length spec) /\
     (In 0 (map fst spec) -> table = [])) /\
  Fizzbuzz.fizzbuzz n = Ok [].
Proof.
  intros Hne _ Hn _. split; [reflexivity |]. split.
  - destruct (lcm_reduce_total (map fst spec)) as [p Hp].
    { destruct spec; [congruence | discriminate]. }
    exists (Closed.table spec p), (Closed.decoder spec).
    split; [apply create_pattern_table, Hp |].
    split; [apply decoder_length |].
    intros H0. rewrite (lcm_reduce_zero _ H0) in Hp.
    inversion Hp; subst p. reflexivity.
  - rewrite fizzbuzz_labels, arange_empty by lia. reflexivity.
Qed.

Lemma input_handling_witness :
  Fizzbuzz.create_pattern [] = Raise ReduceError /\
  (exists table decoder,
     Fizzbuzz.create_pattern [(0, "Fizz")] = Ok (table, decoder) /\
     Z.of_nat (List.length decoder) =
       2 ^ Z.of_nat (List.length [(0, "Fizz")]) /\
     (In 0 (map fst [(0, "Fizz")]) -> table = [])) /\
  Fizzbuzz.fizzbuzz (-1) = Ok [].
Proof.
  apply (input_handling [(0, "Fizz")] (-1)).
  - discriminate.
  - all_fit.
  - lia.
  - fits.
Defined.

(** C9. The constants [PATTERN] and [DECODER] of fizzbuzz.py are what
    [create_pattern] returns for [(3, "Fizz"); (5, "Buzz")]. *)
Theorem constants_from_builder :
  Fizzbuzz.create_pattern [(3, "Fizz"); (5, "Buzz")] =
    Ok ([0; 0; 1; 0; 2; 1; 0; 0; 1; 2; 0; 1; 0; 0; 3],
        ["{}"; "Fizz"; "Buzz"; "FizzBuzz"]) /\
  Fizzbuzz.create_pattern [(3, "Fizz"); (5, "Buzz")] =
    Ok (Fizzbuzz.PATTERN, Fizzbuzz.DECODER).
Proof. split; vm_compute; reflexivity. Qed.



(** * Further properties of the code *)

(** ** The single-range functions *)

(** X1. When [n + 1], the end of the range, is an int64 value, element
    [i] (counted from 1) of [fizzbuzz(n)] is the FizzBuzz word of [i]:
    "FizzBuzz" for a multiple of 3 and 5, "Fizz" for a multiple of 3,
    "Buzz" for a multiple of 5, the numeral of [i] otherwise. *)
Theorem fizzbuzz_element (n i : Z) :
  Int64.fits (n + 1) ->
  1 <= i <= n ->
  exists out,
    Fizzbuzz.fizzbuzz n = Ok out /\
    nth_error out (Z.to_nat (i - 1)) = Some (Spec.label i).
Proof.
  intros _ H. exists (map Spec.label (Np.arange 1 (n + 1))).
  split; [apply fizzbuzz_labels |].
  rewrite nth_error_map.
  rewrite (nth_error_nth' _ 0) by (rewrite arange_length; lia).
  rewrite arange_nth by lia. cbn [option_map]. do 2 f_equal. lia.
Qed.

Lemma fizzbuzz_element_witness :
  Spec.label 15 = "FizzBuzz" /\
  exists out,
    Fizzbuzz.fizzbuzz 20 = Ok out /\
    nth_error out (Z.to_nat (15 - 1)) = Some (Spec.label 15).
Proof.
  split; [reflexivity |].
  apply (fizzbuzz_element 20 15); [fits | lia].
Defined.

Lemma str_not_placeholder (x : Z) : String.eqb (Np.str x) "{}" = false.
Proof.
  unfold Np.str. destruct (Z.to_int x) as [d | d]; [| reflexivity].
  destruct d; reflexivity.
Qed.

Lemma label_not_placeholder (x : Z) : String.eqb (Spec.label x) "{}" = false.
Proof.
  unfold Spec.label.
  destruct (x mod 3 =? 0), (x mod 5 =? 0);
    try reflexivity; apply str_not_placeholder.
Qed.

(** X2. The placeholder of the decoder never reaches the output of
    [fizzbuzz(n)]: whenever the call returns, no element is "{}". *)
Theorem fizzbuzz_no_placeholder (n : Z) (out : list string) :
  Fizzbuzz.fizzbuzz n = Ok out ->
  Forall (fun s => String.eqb s "{}" = false) out.
Proof.
  rewrite fizzbuzz_labels. intros E. inversion E; subst out.
  apply Forall_forall. intros s Hs.
  apply in_map_iff in Hs. destruct Hs as [x [<- _]].
  apply label_not_placeholder.
Qed.

Lemma fizzbuzz_no_placeholder_witness :
  Fizzbuzz.fizzbuzz 5 = Ok ["1"; "2"; "Fizz"; "4"; "Buzz"] /\
  Forall (fun s => String.eqb s "{}" = false)
    ["1"; "2"; "Fizz"; "4"; "Buzz"].
Proof.
  split; [reflexivity |].
  apply (fizzbuzz_no_placeholder 5). reflexivity.
Defined.

(** ** The generalised table *)

Lemma bit_labels_bits (f : Z * string -> bool) (suf : list (Z * string))
    (j : nat) (bs : list bool) :
  (forall t, (t < List.length suf)%nat ->
     nth (j + t) bs false = f (nth t suf (0, ""))) ->
  Spec.bit_labels suf (Z.of_nat j) (Closed.bits_value bs) =
  map snd (filter f suf).
Proof.
  revert j. induction suf as [| [d l] rest IH]; intros j H.
  - reflexivity.
  - cbn [Spec.bit_labels filter]. rewrite bits_value_testbit.
    pose proof (H 0%nat ltac:(simpl; lia)) as H0.
    rewrite Nat.add_0_r in H0. cbn [nth] in H0. rewrite H0.
    replace (Z.of_nat j + 1) with (Z.of_nat (S j)) by lia.
    rewrite (IH (S j)).
    + destruct (f (d, l)); reflexivity.
    + intros t Ht. specialize (H (S t) ltac:(simpl; lia)).
      cbn [nth] in H. rewrite <- H. f_equal. lia.
Qed.

Lemma div_bits_nth (spec : list (Z * string)) (x : Z) (t : nat) :
  (t < List.length spec)%nat ->
  nth t (Closed.div_bits spec x) false =
  (Np.mod_ x (fst (nth t spec (0, ""))) =? 0).
Proof.
  intros Ht. unfold Closed.div_bits. rewrite map_map.
  rewrite (nth_indep _ false
             ((fun d : Z * string => Np.mod_ x (fst d) =? 0) (0, "")))
    by (rewrite length_map; exact Ht).
  rewrite (map_nth (fun d : Z * string => Np.mod_ x (fst d) =? 0)).
  reflexivity.
Qed.

Lemma entry_of_div_bits (spec : list (Z * string)) (x : Z) :
  Forall (fun d => 1 <= fst d) spec ->
  Spec.bit_labels spec 0 (Closed.bits_value (Closed.div_bits spec x)) =
  Spec.dividing_labels spec x.
Proof.
  intros Hv. change 0 with (Z.of_nat 0).
  rewrite (bit_labels_bits (fun d => Np.mod_ x (fst d) =? 0))
    by (intros t Ht; apply div_bits_nth; exact Ht).
  unfold Spec.dividing_labels. f_equal.
  apply filter_ext_in. intros d Hd.
  rewrite Forall_forall in Hv. specialize (Hv d Hd).
  rewrite mod_ne0 by lia. reflexivity.
Qed.

Lemma output_word (spec : list (Z * string)) (x : Z) :
  Spec.valid spec ->
  Closed.output spec (Spec.lcm_all (map fst spec)) x = Spec.word spec x.
Proof.
  intros [_ Hv]. unfold Closed.output, Closed.category, Closed.entry.
  rewrite div_bits_mod_period by exact Hv.
  rewrite entry_of_div_bits by exact Hv.
  unfold Spec.word.
  destruct (Spec.dividing_labels spec x); reflexivity.
Qed.

(** X3. For every valid divisor spec within the machine's reach and any
    int64 positions, positive or not (the least int64 apart, whose
    predecessor wraps), the lookup of the main block over the table that
    [create_pattern] builds gives each position its generalised FizzBuzz
    word: the labels of the divisors of the position joined in spec
    order, and the numeral of the position when no divisor divides it
    (or when the joined labels spell the placeholder). *)
Theorem lookup_words (spec : list (Z * string)) (nums : list Z) :
  Spec.valid spec -> Spec.machine spec ->
  Forall Spec.position nums ->
  exists table decoder,
    Fizzbuzz.create_pattern spec = Ok (table, decoder) /\
    Fizzbuzz.lookup table decoder nums = Ok (map (Spec.word spec) nums).
Proof.
  intros Hv Hm _.
  exists (Closed.pattern spec (Spec.lcm_all (map fst spec))).
  exists (Closed.decoder spec).
  split.
  - apply create_pattern_machine; assumption.
  - rewrite lookup_closed by (apply lcm_all_pos, valid_divisors, Hv).
    f_equal. apply map_ext. intros x. apply output_word, Hv.
Qed.

Lemma lookup_words_witness :
  map (Spec.word Spec.fizzbuzzbazz) [-21; 0; 1; 35; 105; 211] =
    ["FizzBazz"; "FizzBuzzBazz"; "1"; "BuzzBazz"; "FizzBuzzBazz"; "211"] /\
  exists table decoder,
    Fizzbuzz.create_pattern Spec.fizzbuzzbazz = Ok (table, decoder) /\
    Fizzbuzz.lookup table decoder [-21; 0; 1; 35; 105; 211] =
      Ok (map (Spec.word Spec.fizzbuzzbazz) [-21; 0; 1; 35; 105; 211]).
Proof.
  split; [vm_compute; reflexivity |].
  apply (lookup_words Spec.fizzbuzzbazz).
  - split; [discriminate |]. repeat constructor; simpl; lia.
  - apply fizzbuzzbazz_machine.
  - repeat (apply Forall_cons; [split; fits |]). apply Forall_nil.
Defined.

Lemma classic_word (x : Z) : Spec.word Spec.classic x = Spec.label x.
Proof.
  unfold Spec.word, Spec.dividing_labels, Spec.label, Spec.classic.
  cbn [filter fst].
  destruct (x mod 3 =? 0), (x mod 5 =? 0); reflexivity.
Qed.

(** X4. [fizzbuzz(n)], which reads the constant table and masks the
    numbers by category, returns what the generalised pipeline returns
    for the classic spec: the lookup of the main block, which masks by
    the decoded placeholder, over the table built by [create_pattern],
    at the positions 1 to [n]. *)
Theorem fizzbuzz_is_lookup (n : Z) :
  exists table decoder,
    Fizzbuzz.create_pattern Spec.classic = Ok (table, decoder) /\
    Fizzbuzz.fizzbuzz n =
    Fizzbuzz.lookup table decoder (Np.arange 1 (n + 1)).
Proof.
  assert (Spec.valid Spec.classic) as Hv
    by (split; [discriminate | repeat constructor; simpl; lia]).
  exists (Closed.pattern Spec.classic (Spec.lcm_all (map fst Spec.classic))).
  exists (Closed.decoder Spec.classic).
  split.
  - apply create_pattern_machine; [exact Hv | apply classic_machine].
  - rewrite fizzbuzz_labels.
    rewrite lookup_closed by (apply lcm_all_pos, valid_divisors, Hv).
    f_equal. apply map_ext. intros x.
    rewrite output_word by exact Hv. symmetry. apply classic_word.
Qed.

(** X5. A spec with the divisor 0 is built without error, but its table
    is empty and unusable: the lookup raises IndexError as soon as there
    is a position to look up, and returns nothing when there is none. *)
Theorem zero_divisor_lookup (spec : list (Z * string)) (x : Z)
    (nums : list Z) :
  In 0 (map fst spec) ->
  exists table decoder,
    Fizzbuzz.create_pattern spec = Ok (table, decoder) /\
    table = [] /\
    Fizzbuzz.lookup table decoder (x :: nums) = Raise IndexError /\
    Fizzbuzz.lookup table decoder [] = Ok [].
Proof.
  intros H0.
  exists (Closed.table spec 0), (Closed.decoder spec).
  split; [apply create_pattern_table, lcm_reduce_zero, H0 |].
  split; [reflexivity |].
  split; reflexivity.
Qed.

Lemma zero_divisor_lookup_witness :
  exists table decoder,
    Fizzbuzz.create_pattern [(3, "Fizz"); (0, "Zero")] = Ok (table, decoder) /\
    table = [] /\
    Fizzbuzz.lookup table decoder [1; 2; 3] = Raise IndexError /\
    Fizzbuzz.lookup table decoder [] = Ok [].
Proof.
  apply (zero_divisor_lookup [(3, "Fizz"); (0, "Zero")] 1 [2; 3]).
  simpl. right. left. reflexivity.
Defined.

Lemma bits_value_all_true (bs : list bool) :
  Forall (fun b => b = true) bs ->
  Closed.bits_value bs = 2 ^ Z.of_nat (List.length bs) - 1.
Proof.
  induction 1 as [| b bs Hb _ IH]; [reflexivity |].
  rewrite bits_value_cons, IH, Hb.
  replace (Z.of_nat (List.length (true :: bs)))
    with (Z.succ (Z.of_nat (List.length bs))) by (simpl List.length; lia).
  rewrite Z.pow_succ_r by lia. unfold Np.of_bool. lia.
Qed.

Lemma div_bits_at_period (spec : list (Z * string)) :
  Forall (fun d => 1 <= fst d) spec ->
  Forall (fun b => b = true)
    (Closed.div_bits spec (Spec.lcm_all (map fst spec))).
Proof.
  intros Hv. unfold Closed.div_bits.
  apply Forall_forall. intros b Hb.
  apply in_map_iff in Hb. destruct Hb as [d [<- Hd]].
  assert (1 <= d) as Hd1.
  { apply in_map_iff in Hd. destruct Hd as [y [<- Hy]].
    rewrite Forall_forall in Hv. apply Hv, Hy. }
  rewrite mod_ne0 by lia. apply Z.eqb_eq.
  apply Z.mod_divide; [lia |]. apply lcm_all_multiple, Hd.
Qed.

(** X6. For every valid divisor spec with [k] divisors within the
    machine's reach the last entry of the table, the one of the position
    [period], is the full category [2^k - 1], and the decoder maps it to
    all the labels joined in spec order. *)
Theorem full_category_at_period (spec : list (Z * string)) :
  Spec.valid spec -> Spec.machine spec ->
  exists table decoder,
    Fizzbuzz.create_pattern spec = Ok (table, decoder) /\
    nth_error table (Z.to_nat (Spec.lcm_all (map fst spec) - 1)) =
      Some (2 ^ Z.of_nat (List.length spec) - 1) /\
    nth_error decoder (Z.to_nat (2 ^ Z.of_nat (List.length spec) - 1)) =
      Some (String.concat "" (map snd spec)).
Proof.
  intros Hv Hm. pose proof Hv as [Hne Hall].
  pose proof (create_pattern_machine spec Hv Hm) as Hcreate.
  pose proof (lcm_all_pos _ (valid_divisors spec Hv)) as HP.
  set (P := Spec.lcm_all (map fst spec)) in *.
  pose proof (bits_value_all_true _ (div_bits_at_period spec Hall)) as Hc.
  fold P in Hc. rewrite div_bits_length in Hc.
  exists (Closed.pattern spec P), (Closed.decoder spec).
  split; [exact Hcreate |].
  split.
  - unfold Closed.pattern. rewrite nth_error_map.
    rewrite (nth_error_nth' _ 0) by (rewrite arange_length; lia).
    rewrite arange_nth by lia. cbn [option_map].
    replace (1 + Z.of_nat (Z.to_nat (P - 1))) with P by lia.
    rewrite Hc. reflexivity.
  - pose proof (Z.pow_pos_nonneg 2 (Z.of_nat (List.length spec))
                  ltac:(lia) ltac:(lia)) as Hpow.
    rewrite decoder_nth by lia. f_equal.
    unfold Closed.entry. rewrite <- Hc.
    rewrite entry_of_div_bits by exact Hall.
    unfold Spec.dividing_labels.
    assert (filter (fun d => P mod fst d =? 0) spec = spec) as ->.
    { apply forallb_filter_id. apply forallb_forall. intros d Hd.
      apply Z.eqb_eq.
      rewrite Forall_forall in Hall. specialize (Hall d Hd).
      apply Z.mod_divide; [lia |].
      apply lcm_all_multiple, in_map, Hd. }
    destruct spec as [| [d l] rest]; [congruence | reflexivity].
Qed.

Lemma full_category_at_period_witness :
  Spec.lcm_all (map fst Spec.fizzbuzzbazz) = 105 /\
  String.concat "" (map snd Spec.fizzbuzzbazz) = "FizzBuzzBazz" /\
  exists table decoder,
    Fizzbuzz.create_pattern Spec.fizzbuzzbazz = Ok (table, decoder) /\
    nth_error table (Z.to_nat (Spec.lcm_all (map fst Spec.fizzbuzzbazz) - 1)) =
      Some (2 ^ Z.of_nat (List.length Spec.fizzbuzzbazz) - 1) /\
    nth_error decoder
      (Z.to_nat (2 ^ Z.of_nat (List.length Spec.fizzbuzzbazz) - 1)) =
      Some (String.concat "" (map snd Spec.fizzbuzzbazz)).
Proof.
  split; [reflexivity |]. split; [reflexivity |].
  apply (full_category_at_period Spec.fizzbuzzbazz).
  - split; [discriminate |]. repeat constructor; simpl; lia.
  - apply fizzbuzzbazz_machine.
Defined.

(** ** The lookup on any table *)

Lemma index_raises {A : Type} (a : list A) (i : Z) (e : exn) :
  Np.index a i = Raise e -> e = IndexError.
Proof.
  unfold Np.index.
  destruct ((0 <=? _) && (_ <? _));
    [destruct (nth_error a _) |]; congruence.
Qed.

Lemma mapM_app {A B : Type} (f : A -> result B) (l1 l2 : list A) :
  mapM f (l1 ++ l2) =
  (r1 <- mapM f l1 ;; r2 <- mapM f l2 ;; Ok (r1 ++ r2)).
Proof.
  induction l1 as [| x xs IH]; simpl.
  - destruct (mapM f l2); reflexivity.
  - destruct (f x); simpl; [| reflexivity].
    rewrite IH. destruct (mapM f xs); simpl; [| reflexivity].
    destruct (mapM f l2); reflexivity.
Qed.

Lemma mapM_inv_length {A B : Type} (f : A -> result B) (l : list A)
    (r : list B) :
  mapM f l = Ok r -> List.length r = List.length l.
Proof.
  revert r; induction l as [| x xs IH]; intros r; simpl.
  - intros H; inversion H; reflexivity.
  - destruct (f x); simpl; [| discriminate].
    destruct (mapM f xs) as [ys |]; simpl; [| discriminate].
    intros H; inversion H; simpl. rewrite (IH ys eq_refl). reflexivity.
Qed.

Lemma mapM_forall {A B : Type} (f : A -> result B) (P : B -> Prop)
    (l : list A) (r : list B) :
  (forall x y, f x = Ok y -> P y) -> mapM f l = Ok r -> Forall P r.
Proof.
  intros Hf. revert r; induction l as [| x xs IH]; intros r; simpl.
  - intros H; inversion H; constructor.
  - destruct (f x) as [y |] eqn:E; simpl; [| discriminate].
    destruct (mapM f xs) as [ys |]; simpl; [| discriminate].
    intros H; inversion H; constructor; [apply (Hf x y E) | apply IH].
    reflexivity.
Qed.

Lemma assign_combine {A B : Type} (p : B -> bool) (g : A -> B)
    (res : list B) (xs : list A) :
  List.length res = List.length xs ->
  Np.assign res (map p res) (map g (Np.select xs (map p res))) =
  Ok (map (fun xr => if p (snd xr) then g (fst xr) else snd xr)
          (combine xs res)).
Proof.
  intros Hlen. unfold Np.assign.
  rewrite length_map, Nat.eqb_refl. cbn [negb].
  assert (List.length (map g (Np.select xs (map p res))) =
          Np.count_true (map p res)) as ->.
  { rewrite length_map. revert xs Hlen.
    induction res as [| r res IH]; intros [| x xs] Hlen;
      try discriminate; [reflexivity |].
    simpl. injection Hlen as Hlen.
    destruct (p r); simpl; rewrite (IH xs Hlen); reflexivity. }
  rewrite Nat.eqb_refl. f_equal. revert xs Hlen.
  induction res as [| r res IH]; intros [| x xs] Hlen;
    try discriminate; [reflexivity |].
  simpl. injection Hlen as Hlen.
  destruct (p r); simpl; rewrite (IH xs Hlen); reflexivity.
Qed.

Lemma cell_raise_pattern (pattern : list Z) (decoder : list string) (x : Z)
    (e : exn) :
  Np.index pattern (Np.mod_ (x - 1) (Z.of_nat (List.length pattern))) =
    Raise e ->
  Closed.cell pattern decoder x = Raise IndexError.
Proof.
  intros E. unfold Closed.cell. rewrite E. cbn [bind].
  rewrite (index_raises _ _ _ E). reflexivity.
Qed.

Lemma cell_raise_decoder (pattern : list Z) (decoder : list string) (x c : Z)
    (e : exn) :
  Np.index pattern (Np.mod_ (x - 1) (Z.of_nat (List.length pattern))) =
    Ok c ->
  Np.index decoder c = Raise e ->
  Closed.cell pattern decoder x = Raise IndexError.
Proof.
  intros Ec E. unfold Closed.cell. rewrite Ec. cbn [bind]. rewrite E.
  cbn [bind]. rewrite (index_raises _ _ _ E). reflexivity.
Qed.

Lemma cell_ok (pattern : list Z) (decoder : list string) (x c : Z)
    (s : string) :
  Np.index pattern (Np.mod_ (x - 1) (Z.of_nat (List.length pattern))) =
    Ok c ->
  Np.index decoder c = Ok s ->
  Closed.cell pattern decoder x =
  Ok (if String.eqb s "{}" then Np.str x else s).
Proof.
  intros Ec E. unfold Closed.cell. rewrite Ec. cbn [bind]. rewrite E.
  reflexivity.
Qed.

Lemma mapM_index_raises {A : Type} (a : list A) (idx : list Z) (e : exn) :
  mapM (Np.index a) idx = Raise e -> e = IndexError.
Proof.
  revert e. induction idx as [| i rest IH]; intros e; simpl;
    [discriminate |].
  destruct (Np.index a i) eqn:Ei; simpl.
  - destruct (mapM (Np.index a) rest); simpl; [discriminate |].
    intros H; inversion H; subst. apply (IH e eq_refl).
  - intros H; inversion H; subst. apply (index_raises _ _ _ Ei).
Qed.

Lemma lookup_stages (pattern : list Z) (decoder : list string)
    (nums : list Z) :
  match mapM (Np.index pattern)
          (map (fun x => Np.mod_ (x - 1) (Z.of_nat (List.length pattern)))
               nums) with
  | Raise _ => mapM (Closed.cell pattern decoder) nums = Raise IndexError
  | Ok cats =>
      match mapM (Np.index decoder) cats with
      | Raise _ => mapM (Closed.cell pattern decoder) nums = Raise IndexError
      | Ok res =>
          List.length res = List.length nums /\
          mapM (Closed.cell pattern decoder) nums =
            Ok (map (fun xr : Z * string =>
                       if String.eqb (snd xr) "{}" then Np.str (fst xr)
                       else snd xr)
                    (combine nums res))
      end
  end.
Proof.
  induction nums as [| x nums IH]; [simpl; auto |].
  cbn [map mapM].
  destruct (Np.index pattern
              (Np.mod_ (x - 1) (Z.of_nat (List.length pattern))))
    as [c | e] eqn:Ec; cbn [bind].
  2: { rewrite (cell_raise_pattern _ _ _ _ Ec). reflexivity. }
  destruct (mapM (Np.index pattern) _) as [cats | e]; cbn [bind mapM].
  - destruct (Np.index decoder c) as [s | e] eqn:Es; cbn [bind].
    2: { rewrite (cell_raise_decoder _ _ _ _ _ Ec Es). reflexivity. }
    rewrite (cell_ok _ _ _ _ _ Ec Es). cbn [bind].
    destruct (mapM (Np.index decoder) cats) as [res | e]; cbn [bind].
    + destruct IH as [Hlen IH]. rewrite IH. cbn [bind].
      split; [simpl; lia | reflexivity].
    + rewrite IH. reflexivity.
  - destruct (Np.index decoder c) as [s | e'] eqn:Es.
    + rewrite (cell_ok _ _ _ _ _ Ec Es). cbn [bind]. rewrite IH.
      reflexivity.
    + rewrite (cell_raise_decoder _ _ _ _ _ Ec Es). reflexivity.
Qed.

(** The lookup computes each output from its own position alone. *)
Lemma lookup_cells (pattern : list Z) (decoder : list string)
    (nums : list Z) :
  Fizzbuzz.lookup pattern decoder nums =
  mapM (Closed.cell pattern decoder) nums.
Proof.
  pose proof (lookup_stages pattern decoder nums) as H.
  unfold Fizzbuzz.lookup, Np.take.
  destruct (mapM (Np.index pattern) _) as [cats | e] eqn:Ec; cbn [bind].
  2: { rewrite H, (mapM_index_raises _ _ _ Ec). reflexivity. }
  destruct (mapM (Np.index decoder) cats) as [res | e] eqn:Er; cbn [bind].
  2: { rewrite H, (mapM_index_raises _ _ _ Er). reflexivity. }
  destruct H as [Hlen H]. rewrite H.
  apply (assign_combine (fun s => String.eqb s "{}") Np.str res nums Hlen).
Qed.

(** X7. On any table and decoder, the lookup over two runs of positions
    put end to end is the lookup of the first run followed by the lookup
    of the second: an output depends on its own position only, and a
    failure in either run is the failure of the whole. *)
Theorem lookup_app (pattern : list Z) (decoder : list string)
    (xs ys : list Z) :
  Fizzbuzz.lookup pattern decoder (xs ++ ys) =
  (a <- Fizzbuzz.lookup pattern decoder xs ;;
   b <- Fizzbuzz.lookup pattern decoder ys ;;
   Ok (a ++ b)).
Proof. rewrite !lookup_cells. apply mapM_app. Qed.

(** X8. On any table and decoder, a lookup that returns gives one output
    per position and never the placeholder "{}": a decoded placeholder
    is always replaced by the numeral of its position. *)
Theorem lookup_no_placeholder (pattern : list Z) (decoder : list string)
    (nums : list Z) (out : list string) :
  Fizzbuzz.lookup pattern decoder nums = Ok out ->
  List.length out = List.length nums /\
  Forall (fun s => String.eqb s "{}" = false) out.
Proof.
  rewrite lookup_cells. intros H. split.
  - apply (mapM_inv_length _ _ _ H).
  - apply (mapM_forall (Closed.cell pattern decoder) _ nums out); [| exact H].
    intros x y. unfold Closed.cell.
    destruct (Np.index pattern _) as [c |]; cbn [bind]; [| discriminate].
    destruct (Np.index decoder c) as [s |]; cbn [bind]; [| discriminate].
    intros E. inversion E; subst. destruct (String.eqb s "{}") eqn:Es.
    + apply str_not_placeholder.
    + exact Es.
Qed.

Lemma lookup_no_placeholder_witness :
  Fizzbuzz.lookup [0; 1] ["{}"; "{}"] [1; 2; 3] = Ok ["1"; "2"; "3"] /\
  List.length ["1"; "2"; "3"] = List.length [1; 2; 3] /\
  Forall (fun s => String.eqb s "{}" = false) ["1"; "2"; "3"].
Proof.
  split; [reflexivity |].
  apply (lookup_no_placeholder [0; 1] ["{}"; "{}"] [1; 2; 3]).
  reflexivity.
Defined.

(** ** The batched tensor, cell by cell *)

Lemma batched_closed (batch_size sequence_length offset : Z) :
  0 <= batch_size -> 0 <= sequence_length ->
  Batched.fizzbuzz_batched batch_size sequence_length offset =
  Ok (map (Closed.batch_labels sequence_length offset) (Np.range batch_size),
      map (Closed.batch_bits sequence_length offset) (Np.range batch_size),
      map (Closed.batch_nums sequence_length offset) (Np.range batch_size)).
Proof.
  intros Hb Hs. unfold Batched.fizzbuzz_batched.
  replace (batch_size <? 0) with false by (symmetry; apply Z.ltb_ge; lia).
  replace (sequence_length <? 0) with false by (symmetry; apply Z.ltb_ge; lia).
  simpl orb. cbv iota.
  match goal with
  | |- context [Batched.fill _ _ ?c] =>
      assert (c = map (fun b =>
                    map (fun p =>
                      Spec.category (offset + b * sequence_length + p + 1))
                      (Np.range sequence_length))
                    (Np.range batch_size)) as ->
  end.
  { rewrite !map_map. apply map_ext. intros b.
    rewrite !map_map. apply map_ext. intros p.
    simpl Np.dot. rewrite !mod_ne0 by lia. unfold Spec.category. lia. }
  rewrite (fill_labels _
             (fun c => nth (Z.to_nat c) Spec.classic_decoder "")
             (fun b p => offset + b * sequence_length + p + 1))
    by (intros b p _; apply decoder_category).
  simpl bind. f_equal. f_equal. f_equal.
  - apply map_ext. intros b.
    unfold Closed.batch_labels, Closed.batch_nums. rewrite map_map.
    apply map_ext. intros p. apply label_of_category.
  - rewrite map_map. apply map_ext. intros b.
    unfold Closed.batch_bits, Closed.batch_nums. rewrite !map_map.
    apply map_ext. intros p. cbn [map]. rewrite !mod_ne0 by lia.
    reflexivity.
Qed.

Lemma index2_map_range {A : Type} (f : Z -> Z -> A) (b s i j : Z) :
  0 <= i < b -> 0 <= j < s ->
  (row <- Np.index (map (fun x => map (f x) (Np.range s)) (Np.range b)) i ;;
   Np.index row j) = Ok (f i j).
Proof.
  intros Hi Hj.
  rewrite (index_map_range (fun x => map (f x) (Np.range s))) by exact Hi.
  cbn [bind]. apply index_map_range. exact Hj.
Qed.

(** X9. For int64 arguments whose positions are int64 values,
    [fizzbuzz_batched] returns three arrays of [batch_size] rows of
    [sequence_length] cells, and at row [i], column [j] they hold the
    number [offset + i * sequence_length + j + 1], its two divisibility
    bits for 3 and 5, and its FizzBuzz word. *)
Theorem batched_cells (batch_size sequence_length offset i j : Z) :
  Spec.batch_fits batch_size sequence_length offset ->
  0 <= i < batch_size -> 0 <= j < sequence_length ->
  exists result div_tensor nums,
    Batched.fizzbuzz_batched batch_size sequence_length offset =
      Ok (result, div_tensor, nums) /\
    Z.of_nat (List.length result) = batch_size /\
    Forall (fun row => Z.of_nat (List.length row) = sequence_length) result /\
    let n := offset + i * sequence_length + j + 1 in
    (row <- Np.index nums i ;; Np.index row j) = Ok n /\
    (row <- Np.index div_tensor i ;; Np.index row j) =
      Ok [Np.of_bool (n mod 3 =? 0); Np.of_bool (n mod 5 =? 0)] /\
    (row <- Np.index result i ;; Np.index row j) = Ok (Spec.label n).
Proof.
  intros _ Hi Hj.
  do 3 eexists. split; [apply batched_closed; lia |].
  split; [unfold Np.range; rewrite length_map, arange_length; lia |].
  split.
  { apply Forall_forall. intros row Hrow.
    apply in_map_iff in Hrow. destruct Hrow as [b [<- _]].
    unfold Closed.batch_labels, Closed.batch_nums, Np.range.
    rewrite !length_map, arange_length. lia. }
  cbv zeta.
  unfold Closed.batch_labels, Closed.batch_bits, Closed.batch_nums.
  split; [| split].
  - apply (index2_map_range
             (fun b p => offset + b * sequence_length + p + 1)); assumption.
  - erewrite map_ext by (intros b; apply map_map).
    apply (index2_map_range
             (fun b p =>
                let n := offset + b * sequence_length + p + 1 in
                [Np.of_bool (n mod 3 =? 0); Np.of_bool (n mod 5 =? 0)]));
      assumption.
  - erewrite map_ext by (intros b; apply map_map).
    apply (index2_map_range
             (fun b p => Spec.label (offset + b * sequence_length + p + 1)));
      assumption.
Qed.

Lemma batched_cells_witness :
  exists result div_tensor nums,
    Batched.fizzbuzz_batched 3 10 100 = Ok (result, div_tensor, nums) /\
    Z.of_nat (List.length result) = 3 /\
    Forall (fun row => Z.of_nat (List.length row) = 10) result /\
    let n := 100 + 2 * 10 + 4 + 1 in
    (row <- Np.index nums 2 ;; Np.index row 4) = Ok n /\
    (row <- Np.index div_tensor 2 ;; Np.index row 4) =
      Ok [Np.of_bool (n mod 3 =? 0); Np.of_bool (n mod 5 =? 0)] /\
    (row <- Np.index result 2 ;; Np.index row 4) = Ok (Spec.label n).
Proof.
  apply (batched_cells 3 10 100 2 4); [| lia | lia].
  repeat split; discriminate.
Defined.

(** X10. For int64 arguments, a negative [batch_size] or
    [sequence_length] makes both batched functions raise ValueError: the
    result array cannot be allocated. *)
Theorem batched_negative_dimension (batch_size sequence_length offset : Z) :
  Int64.fits batch_size -> Int64.fits sequence_length ->
  Int64.fits offset ->
  batch_size < 0 \/ sequence_length < 0 ->
  Batched.fizzbuzz_batched batch_size sequence_length offset =
    Raise ValueError /\
  Dimensional.fizzbuzz_batched batch_size sequence_length = Raise ValueError.
Proof.
  intros _ _ _ H.
  unfold Batched.fizzbuzz_batched, Dimensional.fizzbuzz_batched.
  assert ((batch_size <? 0) || (sequence_length <? 0) = true) as ->.
  { apply orb_true_iff. destruct H; [left | right]; apply Z.ltb_lt; lia. }
  split; reflexivity.
Qed.

Lemma batched_negative_dimension_witness :
  Batched.fizzbuzz_batched 0 (-1) 7 = Raise ValueError /\
  Dimensional.fizzbuzz_batched 0 (-1) = Raise ValueError.
Proof.
  apply (batched_negative_dimension 0 (-1) 7); [fits | fits | fits |].
  right. lia.
Defined.

Lemma range_add (a b : Z) :
  0 <= a -> 0 <= b ->
  Np.range (a + b) = Np.range a ++ map (fun i => a + i) (Np.range b).
Proof.
  intros Ha Hb. unfold Np.range.
  rewrite (arange_split 0 a (a + b)) by lia. f_equal.
  apply arange_from.
Qed.

(** X11. Batches stack: for int64 arguments whose positions are int64
    values, a call with [b1 + b2] batches returns the rows of the first
    [b1] batches followed by the rows of a call with [b2] batches whose
    offset is moved past them, in each of the three arrays. *)
Theorem batched_stack (b1 b2 sequence_length offset : Z) :
  Spec.batch_fits (b1 + b2) sequence_length offset ->
  0 <= b1 -> 0 <= b2 -> 0 <= sequence_length ->
  exists r1 t1 n1 r2 t2 n2,
    Batched.fizzbuzz_batched b1 sequence_length offset = Ok (r1, t1, n1) /\
    Batched.fizzbuzz_batched b2 sequence_length
      (offset + b1 * sequence_length) = Ok (r2, t2, n2) /\
    Batched.fizzbuzz_batched (b1 + b2) sequence_length offset =
      Ok (r1 ++ r2, t1 ++ t2, n1 ++ n2).
Proof.
  intros _ H1 H2 Hs.
  do 6 eexists.
  split; [apply batched_closed; lia |].
  split; [apply batched_closed; lia |].
  rewrite batched_closed by lia.
  rewrite range_add by lia. rewrite !map_app, !map_map.
  assert (forall b,
            Closed.batch_nums sequence_length offset (b1 + b) =
            Closed.batch_nums sequence_length
              (offset + b1 * sequence_length) b) as Hn.
  { intros b. unfold Closed.batch_nums. apply map_ext. intros p. lia. }
  assert (map (fun x => Closed.batch_labels sequence_length offset (b1 + x))
              (Np.range b2) =
          map (Closed.batch_labels sequence_length
                 (offset + b1 * sequence_length)) (Np.range b2)) as ->
    by (apply map_ext; intros b; unfold Closed.batch_labels;
        rewrite Hn; reflexivity).
  assert (map (fun x => Closed.batch_bits sequence_length offset (b1 + x))
              (Np.range b2) =
          map (Closed.batch_bits sequence_length
                 (offset + b1 * sequence_length)) (Np.range b2)) as ->
    by (apply map_ext; intros b; unfold Closed.batch_bits;
        rewrite Hn; reflexivity).
  assert (map (fun x => Closed.batch_nums sequence_length offset (b1 + x))
              (Np.range b2) =
          map (Closed.batch_nums sequence_length
                 (offset + b1 * sequence_length)) (Np.range b2)) as ->
    by (apply map_ext; intros b; apply Hn).
  reflexivity.
Qed.

Lemma batched_stack_witness :
  exists r1 t1 n1 r2 t2 n2,
    Batched.fizzbuzz_batched 2 5 0 = Ok (r1, t1, n1) /\
    Batched.fizzbuzz_batched 3 5 (0 + 2 * 5) = Ok (r2, t2, n2) /\
    Batched.fizzbuzz_batched (2 + 3) 5 0 = Ok (r1 ++ r2, t1 ++ t2, n1 ++ n2).
Proof.
  apply (batched_stack 2 3 5 0); [| lia | lia | lia].
  repeat split; discriminate.
Defined.

Lemma dimensional_batched_drops_nums (batch_size sequence_length : Z) :
  Dimensional.fizzbuzz_batched batch_size sequence_length =
  (r <- Batched.fizzbuzz_batched batch_size sequence_length 0 ;;
   Ok (fst (fst r), snd (fst r))).
Proof.
  unfold Dimensional.fizzbuzz_batched, Batched.fizzbuzz_batched.
  destruct ((batch_size <? 0) || (sequence_length <? 0)); [reflexivity |].
  cbn [Z.add].
  match goal with
  | |- context [Batched.fill ?d ?n ?c ?b ?s] =>
      destruct (Batched.fill d n c b s); reflexivity
  end.
Qed.

(** X12. The batched function of dimensional_representations.py returns
    the result and the divisibility tensor that the one of
    fizzbuzz_batched.py returns at offset 0, and its rows joined in
    order are the output of [fizzbuzz_vector] over the whole range. *)
Theorem dimensional_batched (batch_size sequence_length : Z) :
  0 <= batch_size -> 0 <= sequence_length ->
  exists result div_matrix nums,
    Dimensional.fizzbuzz_batched batch_size sequence_length =
      Ok (result, div_matrix) /\
    Batched.fizzbuzz_batched batch_size sequence_length 0 =
      Ok (result, div_matrix, nums) /\
    Dimensional.fizzbuzz_vector (batch_size * sequence_length) =
      Ok (List.concat result).
Proof.
  intros Hb Hs.
  destruct (batched_concat batch_size sequence_length 0 Hb Hs)
    as [rows [t [nums [E Hrows]]]].
  exists rows, t, nums.
  split; [rewrite dimensional_batched_drops_nums, E; reflexivity |].
  split; [exact E |].
  rewrite vector_labels, Hrows. do 3 f_equal. lia.
Qed.

Lemma dimensional_batched_witness :
  exists result div_matrix nums,
    Dimensional.fizzbuzz_batched 3 10 = Ok (result, div_matrix) /\
    Batched.fizzbuzz_batched 3 10 0 = Ok (result, div_matrix, nums) /\
    Dimensional.fizzbuzz_vector (3 * 10) = Ok (List.concat result).
Proof. apply (dimensional_batched 3 10); lia. Defined.

(** ** Printing the batches *)

Lemma index_negative {A : Type} (a : list A) (i : Z) :
  - Z.of_nat (List.length a) <= i < 0 ->
  Np.index a i = Np.index a (i + Z.of_nat (List.length a)).
Proof.
  intros H. unfold Np.index.
  replace (i <? 0) with true by (symmetry; apply Z.ltb_lt; lia).
  replace (i + Z.of_nat (List.length a) <? 0) with false
    by (symmetry; apply Z.ltb_ge; lia).
  reflexivity.
Qed.

Lemma index_last_of_range {A : Type} (f : Z -> A) (n : Z) :
  1 <= n -> Np.index (map f (Np.range n)) (-1) = Ok (f (n - 1)).
Proof.
  intros H.
  assert (Z.of_nat (List.length (map f (Np.range n))) = n) as Hlen
    by (unfold Np.range; rewrite length_map, arange_length; lia).
  rewrite index_negative by lia. rewrite Hlen.
  replace (-1 + n) with (n - 1) by lia.
  apply index_map_range. lia.
Qed.

Lemma print_each_ok (line : Z -> result string) (f : Z -> string)
    (indices : list Z) :
  (forall i, In i indices -> line i = Ok (f i)) ->
  Batched.print_each line indices = (map f indices, Ok tt).
Proof.
  induction indices as [| i rest IH]; intros H; [reflexivity |].
  cbn [Batched.print_each map]. rewrite (H i (or_introl eq_refl)).
  rewrite IH by (intros k Hk; apply H; right; exact Hk). reflexivity.
Qed.

Lemma print_each_raises (line : Z -> result string) (n : Z) (e : exn) :
  1 <= n -> line 0 = Raise e ->
  Batched.print_each line (Np.range n) = ([], Raise e).
Proof.
  intros Hn H. unfold Np.range. rewrite arange_cons by lia.
  cbn [Batched.print_each]. rewrite H. reflexivity.
Qed.

(** X13. [print_batched], given what [fizzbuzz_batched] returns for
    int64 arguments whose positions are int64 values and at least one
    position per batch, prints one line per batch and ends normally; the
    line of batch [i] shows [i], the first and the last number of the
    batch in three columns, and the words of the batch separated by
    spaces. *)
Theorem print_batched_lines (batch_size sequence_length offset : Z) :
  Spec.batch_fits batch_size sequence_length offset ->
  0 <= batch_size -> 1 <= sequence_length ->
  exists result div_tensor nums,
    Batched.fizzbuzz_batched batch_size sequence_length offset =
      Ok (result, div_tensor, nums) /\
    Batched.print_batched result nums =
      (map (fun i =>
              String.concat ""
                ["  Batch "; Np.str i; " (";
                 Np.format_3d (offset + i * sequence_length + 1); "-";
                 Np.format_3d (offset + i * sequence_length + sequence_length);
                 "): ";
                 Np.join " "
                   (map Spec.label
                      (Np.arange (offset + i * sequence_length + 1)
                         (offset + i * sequence_length + 1
                          + sequence_length)))])
           (Np.range batch_size),
       Ok tt).
Proof.
  intros _ Hb Hs. do 3 eexists.
  split; [apply batched_closed; lia |].
  unfold Batched.print_batched.
  assert (Z.of_nat
            (List.length
               (map (Closed.batch_labels sequence_length offset)
                  (Np.range batch_size))) = batch_size) as ->
    by (unfold Np.range; rewrite length_map, arange_length; lia).
  apply print_each_ok. intros i Hi. apply arange_in in Hi.
  unfold Batched.batch_line.
  rewrite !(index_map_range _ batch_size i) by lia. cbn [bind].
  unfold Closed.batch_nums at 1.
  rewrite index_map_range by lia. cbn [bind].
  unfold Closed.batch_nums at 1.
  rewrite index_last_of_range by lia. cbn [bind].
  unfold Closed.batch_labels, Closed.batch_nums.
  rewrite arange_from, !map_map.
  replace (offset + i * sequence_length + 0 + 1)
    with (offset + i * sequence_length + 1) by lia.
  replace (offset + i * sequence_length + (sequence_length - 1) + 1)
    with (offset + i * sequence_length + sequence_length) by lia.
  rewrite (map_ext
             (fun x => Spec.label (offset + i * sequence_length + x + 1))
             (fun x => Spec.label (offset + i * sequence_length + 1 + x)))
    by (intros p; f_equal; lia).
  reflexivity.
Qed.

Lemma print_batched_lines_witness :
  exists result div_tensor nums,
    Batched.fizzbuzz_batched 2 5 0 = Ok (result, div_tensor, nums) /\
    Batched.print_batched result nums =
      (["  Batch 0 (  1-  5): 1 2 Fizz 4 Buzz";
        "  Batch 1 (  6- 10): Fizz 7 8 Fizz Buzz"],
       Ok tt).
Proof.
  destruct (print_batched_lines 2 5 0
              ltac:(repeat split; discriminate) ltac:(lia) ltac:(lia))
    as [r [t [n [E P]]]].
  exists r, t, n. split; [exact E |]. rewrite P.
  vm_compute. reflexivity.
Defined.

(** X14. With [sequence_length = 0], an int64 [batch_size] and an int64
    [offset], the arrays of [fizzbuzz_batched] have rows without cells,
    and [print_batched] raises IndexError on the first batch, before it
    prints anything; with no batch at all it prints nothing and ends
    normally. *)
Theorem print_batched_empty_rows (batch_size offset : Z) :
  Spec.batch_fits batch_size 0 offset ->
  0 <= batch_size ->
  exists result div_tensor nums,
    Batched.fizzbuzz_batched batch_size 0 offset =
      Ok (result, div_tensor, nums) /\
    Batched.print_batched result nums =
      ([], if batch_size =? 0 then Ok tt else Raise IndexError).
Proof.
  intros _ Hb. do 3 eexists.
  split; [apply batched_closed; lia |].
  unfold Batched.print_batched.
  assert (Z.of_nat
            (List.length
               (map (Closed.batch_labels 0 offset) (Np.range batch_size)))
          = batch_size) as ->
    by (unfold Np.range; rewrite length_map, arange_length; lia).
  destruct (Z.eqb_spec batch_size 0) as [-> | Hne]; [reflexivity |].
  apply print_each_raises; [lia |].
  unfold Batched.batch_line.
  rewrite (index_map_range _ batch_size 0) by lia.
  reflexivity.
Qed.

Lemma print_batched_empty_rows_witness :
  exists result div_tensor nums,
    Batched.fizzbuzz_batched 3 0 0 = Ok (result, div_tensor, nums) /\
    Batched.print_batched result nums =
      ([], if 3 =? 0 then Ok tt else Raise IndexError).
Proof.
  apply (print_batched_empty_rows 3 0); [| lia].
  repeat split; discriminate.
Defined.

(** ** Across the files *)

(** X15. The five single-range functions of the repository, the pattern
    vector of fizzbuzz.py, the binary matrix of fizzbuzz_compact.py and
    the three representations of dimensional_representations.py, return
    the same sequence for every [n] such that [n + 1], the end of the
    range, is an int64 value. *)
Theorem single_range_functions_agree (n : Z) :
  Int64.fits (n + 1) ->
  exists out,
    Fizzbuzz.fizzbuzz n = Ok out /\
    Compact.fizzbuzz n = Ok out /\
    Dimensional.fizzbuzz_binary n = Ok out /\
    Dimensional.fizzbuzz_modular n = Ok out /\
    Dimensional.fizzbuzz_vector n = Ok out.
Proof.
  intros _.
  exists (map Spec.label (Np.arange 1 (n + 1))).
  repeat split.
  - apply fizzbuzz_labels.
  - apply compact_labels.
  - apply binary_labels.
  - apply modular_labels.
  - apply vector_labels.
Qed.

Lemma single_range_functions_agree_witness :
  exists out,
    Fizzbuzz.fizzbuzz 45 = Ok out /\
    Compact.fizzbuzz 45 = Ok out /\
    Dimensional.fizzbuzz_binary 45 = Ok out /\
    Dimensional.fizzbuzz_modular 45 = Ok out /\
    Dimensional.fizzbuzz_vector 45 = Ok out.
Proof. apply (single_range_functions_agree 45). fits. Defined.
